(** * gzh-cli-core, package [cli]: the LLM-oriented structured text formatter

    A shallow embedding of the methods of [llmFormatter] ([format],
    [formatValue], [formatStruct], [formatSlice], [formatMap],
    [shouldSkipField], [fieldNameToLabel], [formatSpecialType], [indent],
    [isComplexType]) and of [Output.Print] / [Output.printLLM], followed by
    the properties of the formatter's textual contract.

    Conventions of the embedding.
    - A Go [string] is a byte sequence: Rocq's [string], one [ascii] per byte.
    - A [rune], an [int] read through reflection and a byte value are [Z].
    - Go code that can panic (an index or slice expression out of range)
      returns an [outcome]: [Returns] the result or [Panics].
    - A [reflect.Value] is a finite tree, [value]; the [Kind] switch of the
      source is pattern matching on it, and a pointer or interface holds its
      target.  Pointers and interfaces that lead back to themselves are
      cells of a [store], on which the dereference loop of [formatValue]
      runs on fuel; other cyclic object graphs are outside the data model.
    - What the formatter only observes of types defined elsewhere
      ([time.Time], [time.Duration], floats, [error] values, kinds it prints
      with [%v]) is carried by the value: the result of [IsZero], of
      [Format(time.RFC3339)], of [String()], of [Error()], of [Sprintf]. *)

From Stdlib Require Import String Ascii List ZArith NArith Lia Bool Arith.
From Stdlib Require Import DecimalString.
From Stdlib.Strings Require Import Byte.
Import ListNotations.

Local Open Scope list_scope.
Local Open Scope string_scope.
Local Open Scope nat_scope.

(** ** Panicking computations *)

Inductive outcome (A : Type) : Type :=
| Returns (a : A)
| Panics (reason : string).

Arguments Returns {A} a.
Arguments Panics {A} reason.

Declare Scope outcome_scope.
Delimit Scope outcome_scope with outcome.

Notation "x <- c1 ;; c2" :=
  (match c1 with
   | Returns x => c2
   | Panics reason => Panics reason
   end)
  (at level 61, c1 at next level, right associativity) : outcome_scope.

Local Open Scope outcome_scope.

(** ** Bytes, runes and the Go library functions the formatter calls *)

Definition rune : Type := Z.

Definition byteVal (c : ascii) : Z := Z.of_N (N_of_ascii c).
Definition byteChr (b : Z) : ascii := ascii_of_N (Z.to_N b).

(** The line feed, Go's ["\n"]. *)
Definition LF : string := String "010" "".

(** [s[i]] on a string, converted to a rune as in [rune(name[i])]. *)
Definition index (s : string) (i : nat) : outcome rune :=
  match String.get i s with
  | Some c => Returns (byteVal c)
  | None => Panics "index out of range"
  end.

(** [b[:n]] on a byte slice. *)
Definition sliceTo (b : list byte) (n : nat) : outcome (list byte) :=
  if n <=? List.length b then Returns (firstn n b)
  else Panics "slice bounds out of range".

Module strings.

(** [strings.Contains(s, substr)]. *)
Fixpoint Contains (s substr : string) : bool :=
  String.prefix substr s
  || match s with
     | EmptyString => false
     | String _ s' => Contains s' substr
     end.

(** [strings.Repeat(s, count)] for a count that is not negative. *)
Fixpoint Repeat (s : string) (count : nat) : string :=
  match count with
  | O => ""
  | S n => s ++ Repeat s n
  end.

(** [strings.Join(elems, sep)]. *)
Definition Join (elems : list string) (sep : string) : string :=
  String.concat sep elems.

(** The first loop of [strings.ToLower]: every byte is below
    [utf8.RuneSelf]. *)
Fixpoint onlyASCII (s : string) : bool :=
  match s with
  | EmptyString => true
  | String c s' => if (0x80 <=? byteVal c)%Z then false else onlyASCII s'
  end.

(** The same loop: some byte is in ['A'..'Z']. *)
Fixpoint hasUpper (s : string) : bool :=
  match s with
  | EmptyString => false
  | String c s' => ((0x41 <=? byteVal c) && (byteVal c <=? 0x5A))%Z || hasUpper s'
  end.

(** The second loop: [c += 'a' - 'A'] on the bytes in ['A'..'Z']. *)
Fixpoint lowerBytes (s : string) : string :=
  match s with
  | EmptyString => ""
  | String c s' =>
    String (if ((0x41 <=? byteVal c) && (byteVal c <=? 0x5A))%Z
            then byteChr (byteVal c + 0x20) else c)
      (lowerBytes s')
  end.

(** [strings.ToLower(s)].  On a string with a byte outside ASCII Go answers
    [Map(unicode.ToLower, s)], which needs the Unicode tables: that branch
    is the argument [mapLower]. *)
Definition ToLower (mapLower : string -> string) (s : string) : string :=
  if onlyASCII s then
    if negb (hasUpper s) then s else lowerBytes s
  else mapLower s.

(** [strings.Split(s, sep)] for a separator [sep] of one byte; [cur] is
    the part read since the last separator. *)
Fixpoint splitAt (sep : ascii) (s : string) (cur : string) : list string :=
  match s with
  | EmptyString => [cur]
  | String c s' =>
    if Ascii.eqb c sep then cur :: splitAt sep s' ""
    else splitAt sep s' (cur ++ String c "")
  end.

Definition Split (s : string) (sep : ascii) : list string := splitAt sep s "".

End strings.

Module utf8.

Definition RuneError : rune := 0xFFFD%Z.

Definition between (lo hi : Z) (c : ascii) : bool :=
  ((lo <=? byteVal c) && (byteVal c <=? hi))%Z.

(** The table [first] with [acceptRanges]: for a leading byte, the length
    of the sequence and the range accepted for its second byte. *)
Definition first (s0 : Z) : option (nat * Z * Z) :=
  (if s0 <? 0xC2 then None
   else if s0 <=? 0xDF then Some (2%nat, 0x80, 0xBF)
   else if s0 =? 0xE0 then Some (3%nat, 0xA0, 0xBF)
   else if s0 =? 0xED then Some (3%nat, 0x80, 0x9F)
   else if s0 <=? 0xEF then Some (3%nat, 0x80, 0xBF)
   else if s0 =? 0xF0 then Some (4%nat, 0x90, 0xBF)
   else if s0 <=? 0xF3 then Some (4%nat, 0x80, 0xBF)
   else if s0 =? 0xF4 then Some (4%nat, 0x80, 0x8F)
   else None)%Z.

Definition low6 (c : ascii) : Z := Z.land (byteVal c) 0x3F.

(** [utf8.DecodeRuneInString]: the first rune of [s] and its width in
    bytes; an invalid or truncated encoding is [RuneError] of width 1. *)
Definition DecodeRuneInString (s : string) : rune * nat :=
  match s with
  | EmptyString => (RuneError, 0)
  | String c0 t0 =>
    let s0 := byteVal c0 in
    if (s0 <? 0x80)%Z then (s0, 1)
    else
      match first s0, t0 with
      | Some (sz, lo, hi), String c1 t1 =>
        if negb (between lo hi c1) then (RuneError, 1)
        else if sz <=? 2 then
          (Z.lor (Z.shiftl (Z.land s0 0x1F) 6) (low6 c1), 2)
        else
          match t1 with
          | String c2 t2 =>
            if negb (between 0x80 0xBF c2) then (RuneError, 1)
            else if sz <=? 3 then
              (Z.lor (Z.shiftl (Z.land s0 0x0F) 12)
                 (Z.lor (Z.shiftl (low6 c1) 6) (low6 c2)), 3)
            else
              match t2 with
              | String c3 _ =>
                if negb (between 0x80 0xBF c3) then (RuneError, 1)
                else
                  (Z.lor (Z.shiftl (Z.land s0 0x07) 18)
                     (Z.lor (Z.shiftl (low6 c1) 12)
                        (Z.lor (Z.shiftl (low6 c2) 6) (low6 c3))), 4)
              | EmptyString => (RuneError, 1)
              end
          | EmptyString => (RuneError, 1)
          end
      | _, _ => (RuneError, 1)
      end
  end.

Definition tail6 (r : Z) (shift : Z) : ascii :=
  byteChr (Z.lor 0x80 (Z.land (Z.shiftr r shift) 0x3F)).

(** [utf8.AppendRune] on an empty buffer: the UTF-8 encoding of [r]. *)
Definition EncodeRune (r : rune) : string :=
  (if (0 <=? r) && (r <=? 0x7F) then String (byteChr r) ""
   else if (0 <=? r) && (r <=? 0x7FF) then
     String (byteChr (Z.lor 0xC0 (Z.shiftr r 6))) (String (tail6 r 0) "")
   else if (r <? 0) || (0x10FFFF <? r) || ((0xD800 <=? r) && (r <=? 0xDFFF)) then
     String (byteChr 0xEF) (String (byteChr 0xBF) (String (byteChr 0xBD) ""))
   else if r <=? 0xFFFF then
     String (byteChr (Z.lor 0xE0 (Z.shiftr r 12)))
       (String (tail6 r 6) (String (tail6 r 0) ""))
   else
     String (byteChr (Z.lor 0xF0 (Z.shiftr r 18)))
       (String (tail6 r 12) (String (tail6 r 6) (String (tail6 r 0) ""))))%Z.

End utf8.

(** [for i, r := range s]: the byte offset and the rune of every iteration.
    [skip] counts the bytes of the current rune still to be passed over. *)
Fixpoint rangeFrom (i : nat) (s : string) (skip : nat) : list (nat * rune) :=
  match s with
  | EmptyString => []
  | String _ s' =>
    match skip with
    | S k => rangeFrom (S i) s' k
    | O =>
      let (r, width) := utf8.DecodeRuneInString s in
      (i, r) :: rangeFrom (S i) s' (width - 1)
    end
  end.

Definition rangeString (s : string) : list (nat * rune) := rangeFrom 0 s 0.

Module unicode.

(** Upper- and lower-case letters and [ToUpper] as Go's [unicode] package
    decides them on U+0000..U+00FF (its Latin-1 property table and
    [CaseRanges]).  Above U+00FF Go consults the Unicode range tables,
    which this development does not contain: there a rune is taken to
    have no case.  Every property below that depends on a label is about
    names whose runes lie in the modelled range. *)

Definition IsUpper (r : rune) : bool :=
  (((0x41 <=? r) && (r <=? 0x5A))
   || ((0xC0 <=? r) && (r <=? 0xDE) && negb (r =? 0xD7)))%Z.

Definition IsLower (r : rune) : bool :=
  (((0x61 <=? r) && (r <=? 0x7A))
   || (r =? 0xB5)
   || ((0xDF <=? r) && (r <=? 0xFF) && negb (r =? 0xF7)))%Z.

Definition ToUpper (r : rune) : rune :=
  (if (0x61 <=? r) && (r <=? 0x7A) then r - 0x20
   else if r =? 0xB5 then 0x39C
   else if (0xE0 <=? r) && (r <=? 0xFE) && negb (r =? 0xF7) then r - 0x20
   else if r =? 0xFF then 0x178
   else r)%Z.

End unicode.

(** [fmt.Sprintf("%d", n)]. *)
Definition formatInt (n : Z) : string := NilZero.string_of_int (Z.to_int n).

Definition hexDigit (d : N) : ascii :=
  (if d <? 10 then ascii_of_N (48 + d) else ascii_of_N (87 + d))%N.

(** [fmt.Sprintf("%x", b)] on a byte slice: two lower-case hexadecimal
    digits per byte. *)
Fixpoint formatHex (b : list byte) : string :=
  match b with
  | [] => ""
  | x :: b' =>
    String (hexDigit (Byte.to_N x / 16)) (String (hexDigit (Byte.to_N x mod 16)) (formatHex b'))
  end.

(** ** Values under reflection *)

(** A struct field as [reflect] shows it: [Type().Field(i).Name],
    [IsExported()] and [Field(i)]. *)
Record field (V : Type) : Type := mkField {
  fName : string;
  fExported : bool;
  fValue : V
}.

Arguments mkField {V} fName fExported fValue.
Arguments fName {V} f.
Arguments fExported {V} f.
Arguments fValue {V} f.

(** The values the formatter walks, by [Kind] and, for the types
    [formatSpecialType] singles out, by type. *)
#[warnings="-register-all"] Inductive value : Type :=
| VPtr (target : option value)            (* reflect.Ptr, nil or its target *)
| VInterface (dynamic : option value)     (* reflect.Interface, nil or its content *)
| VStruct (fields : list (field value))   (* reflect.Struct other than time.Time *)
| VSlice (elems : list value)             (* reflect.Slice and reflect.Array other than []byte *)
| VMap (entries : list (value * value))   (* reflect.Map, in the order MapRange yields *)
| VString (s : string)
| VBool (b : bool)
| VInt (n : Z)                            (* Int .. Int64 other than time.Duration *)
| VUint (n : N)                           (* Uint .. Uint64 *)
| VFloat (isZero : bool) (g : string)     (* v.Float() == 0, and its %g text *)
| VTime (isZero : bool) (rfc3339 : string)  (* time.Time: IsZero(), Format(time.RFC3339) *)
| VDuration (d : Z) (str : string)        (* time.Duration: nanoseconds, String() *)
| VBytes (b : list byte)                  (* []byte *)
| VError (shape : value) (msg : string)   (* a type with method Error() on its values:
                                             the value by kind, and Error() *)
| VOther (text : string).                 (* any other kind, and its %v text *)

(** ** The formatter: the methods of [llmFormatter] *)

Module llmFormatter.

Definition maxLLMDepth : nat := 5.
Definition indentSize : nat := 2.

(** [strings.Builder.WriteRune]. *)
Definition WriteRune (sb : string) (r : rune) : string := sb ++ utf8.EncodeRune r.

(** The body of the loop of [fieldNameToLabel]: the builder after the
    iteration at offset [i] with rune [r]. *)
Definition labelStep (name : string) (result : string) (i : nat) (r : rune)
  : outcome string :=
  result <-
    (if (0 <? i) && unicode.IsUpper r then
       prev <- index name (i - 1) ;;
       if unicode.IsLower prev then Returns (WriteRune result 0x5F%Z)
       else if i + 1 <? String.length name then
         next <- index name (i + 1) ;;
         if unicode.IsLower next then Returns (WriteRune result 0x5F%Z)
         else Returns result
       else Returns result
     else Returns result) ;;
  Returns (WriteRune result (unicode.ToUpper r)).

Fixpoint labelLoop (name : string) (iter : list (nat * rune)) (result : string)
  : outcome string :=
  match iter with
  | [] => Returns result
  | (i, r) :: iter' =>
    result <- labelStep name result i r ;;
    labelLoop name iter' result
  end.

(** [fieldNameToLabel] converts CamelCase to UPPER_CASE. *)
Definition fieldNameToLabel (name : string) : outcome string :=
  labelLoop name (rangeString name) "".

(** [indent] returns the indentation string for the given depth. *)
Definition indent (depth : nat) : string := strings.Repeat " " (depth * indentSize).

(** [isComplexType] checks if the value is a struct, slice, or map. *)
Fixpoint isComplexType (v : value) : bool :=
  match v with
  | VPtr None | VInterface None => false
  | VPtr (Some e) | VInterface (Some e) => isComplexType e
  | VStruct _ | VSlice _ | VMap _ => true
  | VTime _ _ => true       (* Kind Struct *)
  | VBytes _ => true        (* Kind Slice *)
  | VError shape _ => isComplexType shape
  | VString _ | VBool _ | VInt _ | VUint _ | VFloat _ _ | VDuration _ _ | VOther _ => false
  end.

(** [shouldSkipField] returns true if the field should be omitted from output. *)
Fixpoint shouldSkipField (v : value) : bool :=
  match v with
  | VPtr None | VInterface None => true
  | VPtr (Some e) | VInterface (Some e) => shouldSkipField e
  | VString s => (s =? "")%string
  | VBool b => negb b
  | VInt n => (n =? 0)%Z
  | VDuration d _ => (d =? 0)%Z     (* Kind Int64 *)
  | VUint n => (n =? 0)%N
  | VFloat isZero _ => isZero
  | VSlice elems => List.length elems =? 0
  | VBytes b => List.length b =? 0  (* Kind Slice *)
  | VMap entries => List.length entries =? 0
  | VTime isZero _ => isZero
  | VStruct _ => false
  | VError shape _ => shouldSkipField shape
  | VOther _ => false
  end.

(** [formatSpecialType] handles special types like time.Time, time.Duration.
    Every [value] is valid and can be interfaced: the formatter reaches
    values from its argument through exported fields, elements and map
    entries only. *)
Definition formatSpecialType (v : value) : outcome (string * bool) :=
  match v with
  | VTime isZero rfc3339 =>
    if isZero then Returns ("", true) else Returns (rfc3339, true)
  | VDuration d str =>
    if (d =? 0)%Z then Returns ("", true) else Returns (str, true)
  | VBytes b =>
    if List.length b =? 0 then Returns ("", true)
    else if 32 <? List.length b then
      head <- sliceTo b 32 ;;
      Returns (formatHex head ++ "...(" ++ formatInt (Z.of_nat (List.length b)) ++ " bytes)", true)
    else Returns (formatHex b, true)
  | VError _ msg => Returns (msg, true)
  | _ => Returns ("", false)
  end.

Section Traversal.

(** The loops of [formatStruct], [formatSlice] and [formatMap], over the
    function they call on every field, element and entry. *)
Variable formatValue : value -> nat -> outcome string.

(** The loop over the fields; [sb] is the [strings.Builder]. *)
Fixpoint structFields (depth : nat) (fields : list (field value)) (sb : string)
  : outcome string :=
  match fields with
  | [] => Returns sb
  | mkField name exported fieldValue :: rest =>
    if negb exported then structFields depth rest sb
    else if shouldSkipField fieldValue then structFields depth rest sb
    else
      fieldLabel <- fieldNameToLabel name ;;
      formatted <- formatValue fieldValue (depth + 1) ;;
      if (formatted =? "")%string then structFields depth rest sb
      else if strings.Contains formatted LF then
        structFields depth rest (sb ++ indent depth ++ fieldLabel ++ ":" ++ LF ++ formatted)
      else
        structFields depth rest (sb ++ indent depth ++ fieldLabel ++ ": " ++ formatted ++ LF)
  end.

Definition formatStructWith (fields : list (field value)) (depth : nat)
  : outcome string :=
  if maxLLMDepth <? depth then Returns "..."
  else structFields depth fields "".

(** The loop of the primitive branch; [items] is the slice appended to. *)
Fixpoint sliceItems (depth : nat) (elems : list value) (items : list string)
  : outcome (list string) :=
  match elems with
  | [] => Returns items
  | elem :: rest =>
    formatted <- formatValue elem depth ;;
    if negb (formatted =? "")%string then sliceItems depth rest (items ++ [formatted])%list
    else sliceItems depth rest items
  end.

(** The loop of the numbered branch, from index [i] on. *)
Fixpoint sliceNumbered (depth : nat) (i : nat) (elems : list value) (sb : string)
  : outcome string :=
  match elems with
  | [] => Returns sb
  | elem :: rest =>
    formatted <- formatValue elem (depth + 1) ;;
    if negb (formatted =? "")%string then
      sliceNumbered depth (i + 1) rest
        (sb ++ indent depth ++ "[" ++ formatInt (Z.of_nat i) ++ "]" ++ LF ++ formatted)
    else sliceNumbered depth (i + 1) rest sb
  end.

Definition formatSliceWith (elems : list value) (depth : nat) : outcome string :=
  if List.length elems =? 0 then Returns ""
  else if maxLLMDepth <? depth then Returns "..."
  else if match elems with
          | first :: _ => negb (isComplexType first)  (* v.Len() > 0 && !isComplexType(v.Index(0)) *)
          | [] => false
          end
  then
    items <- sliceItems depth elems [] ;;
    if List.length items =? 0 then Returns ""
    else Returns (strings.Join items " | ")
  else sliceNumbered depth 0 elems "".

(** The loop over [MapRange]. *)
Fixpoint mapEntries (depth : nat) (entries : list (value * value)) (sb : string)
  : outcome string :=
  match entries with
  | [] => Returns sb
  | (key, val) :: rest =>
    keyStr <- formatValue key depth ;;
    valueStr <- formatValue val (depth + 1) ;;
    if (valueStr =? "")%string then mapEntries depth rest sb
    else if strings.Contains valueStr LF then
      mapEntries depth rest (sb ++ indent depth ++ keyStr ++ ":" ++ LF ++ valueStr)
    else
      mapEntries depth rest (sb ++ indent depth ++ keyStr ++ ": " ++ valueStr ++ LF)
  end.

Definition formatMapWith (entries : list (value * value)) (depth : nat)
  : outcome string :=
  if List.length entries =? 0 then Returns ""
  else if maxLLMDepth <? depth then Returns "..."
  else mapEntries depth entries "".

End Traversal.

(** [formatValue] handles reflect.Value formatting.  Pointers and
    interfaces are dereferenced first; [formatSpecialType] answers, with
    [ok], exactly for [time.Time], [time.Duration], [[]byte] and error
    values, which therefore return before the switch on [Kind]. *)
Fixpoint formatValue (v : value) (depth : nat) {struct v} : outcome string :=
  match v with
  | VPtr None | VInterface None => Returns ""
  | VPtr (Some e) | VInterface (Some e) => formatValue e depth
  | VTime _ _ | VDuration _ _ | VBytes _ | VError _ _ =>
    special <- formatSpecialType v ;;
    Returns (fst special)
  | VStruct fields => formatStructWith formatValue fields depth
  | VSlice elems => formatSliceWith formatValue elems depth
  | VMap entries => formatMapWith formatValue entries depth
  | VString s => Returns s
  | VBool b => if b then Returns "true" else Returns ""
  | VInt n => if (n =? 0)%Z then Returns "" else Returns (formatInt n)
  | VUint n => if (n =? 0)%N then Returns "" else Returns (formatInt (Z.of_N n))
  | VFloat isZero g => if isZero then Returns "" else Returns g
  | VOther text => Returns text
  end.

(** [formatStruct] formats a struct with UPPER_CASE field labels. *)
Definition formatStruct : list (field value) -> nat -> outcome string :=
  formatStructWith formatValue.

(** [formatSlice] formats slices - primitives with pipe separator, structs
    with indices. *)
Definition formatSlice : list value -> nat -> outcome string :=
  formatSliceWith formatValue.

(** [formatMap] formats maps with key-value pairs. *)
Definition formatMap : list (value * value) -> nat -> outcome string :=
  formatMapWith formatValue.

(** [format] converts any data to LLM-friendly string format; [data] is the
    [interface{}] argument, [None] when it is nil. *)
Definition format (data : option value) (depth : nat) : outcome string :=
  match data with
  | None => Returns ""
  | Some v =>
    if maxLLMDepth <? depth then Returns "..."
    else formatValue v depth
  end.

End llmFormatter.

Import llmFormatter.

(** ** The formatter on references into memory *)

(** What the loop at the head of [formatValue] looks at: a pointer or an
    interface, nil or with what [Elem()] yields at a place of the memory,
    or a value. *)
Inductive cell : Type :=
| CRef (target : option nat)
| CValue (v : value).

(** The memory behind the references: what lies at each place. *)
Definition store : Type := nat -> cell.

(** [formatValue] on a cell: the loop
    [for v.Kind() == reflect.Ptr || v.Kind() == reflect.Interface], of
    which [fuel] bounds the number of turns through [v = v.Elem()], then
    the rest of [formatValue] on the value reached.  [None]: the loop has
    not ended within [fuel] turns. *)
Fixpoint formatValueIn (st : store) (fuel : nat) (c : cell) (depth : nat)
  : option (outcome string) :=
  match c with
  | CValue v => Some (formatValue v depth)
  | CRef None => Some (Returns "")
  | CRef (Some a) =>
    match fuel with
    | O => None
    | S fuel' => formatValueIn st fuel' (st a) depth
    end
  end.

(** [format] on data that refers into memory. *)
Definition formatIn (st : store) (fuel : nat) (data : option cell) (depth : nat)
  : option (outcome string) :=
  match data with
  | None => Some (Returns "")
  | Some c =>
    if maxLLMDepth <? depth then Some (Returns "...")
    else formatValueIn st fuel c depth
  end.

(** ** The output: the methods of [Output] *)

Module output.

Section Writer.

(** The [io.Writer] behind an [Output]: its state and its [Write] method,
    which answers the new state and the error, if any. *)
Variable W : Type.
Variable Write : W -> string -> W * option string.

(** [Output] handles formatted output. *)
Record Output : Type := mkOutput {
  writer : W;
  format : string
}.

(** The encoders of the other formats (encoding/json, yaml.v3 and
    [fmt.Fprintln]) are not part of this package. *)
Variable printJSON : Output -> option value -> outcome (W * option string).
Variable printYAML : Output -> option value -> outcome (W * option string).
Variable printText : Output -> option value -> outcome (W * option string).

(** [fmt.Fprint(w, s)] for one string operand: a single [Write] of [s]. *)
Definition Fprint (w : W) (s : string) : W * option string := Write w s.

(** [printLLM] prints data in LLM-friendly compact format. *)
Definition printLLM (o : Output) (data : option value) : outcome (W * option string) :=
  output <- llmFormatter.format data 0 ;;
  if (output =? "")%string then Returns (writer o, None)
  else Returns (Fprint (writer o) output).

(** [Print] prints data in the configured format. *)
Definition Print (o : Output) (data : option value) : outcome (W * option string) :=
  if (format o =? "json")%string then printJSON o data
  else if ((format o =? "yaml") || (format o =? "yml"))%string then printYAML o data
  else if (format o =? "llm")%string then printLLM o data
  else printText o data.

(** [SetWriter] sets the output writer. *)
Definition SetWriter (o : Output) (w : W) : Output := mkOutput w (format o).

(** [SetFormat] sets the output format; [mapLower] is the branch of
    [strings.ToLower] for strings outside ASCII. *)
Definition SetFormat (mapLower : string -> string) (o : Output) (fmt : string) : Output :=
  mkOutput (writer o) (strings.ToLower mapLower fmt).

(** [NewOutput] creates a new Output with default stdout writer. *)
Definition NewOutput (stdout : W) : Output := mkOutput stdout "text".

End Writer.

End output.

(** ** Package logger: levels and the simple logger *)

Module logger.

(** [Level] represents logging level. *)
Definition Level : Type := Z.

Definition LevelDebug : Level := 0%Z.
Definition LevelInfo : Level := 1%Z.
Definition LevelWarn : Level := 2%Z.
Definition LevelError : Level := 3%Z.

(** [String] returns the string representation of the level. *)
Definition String_ (l : Level) : string :=
  if (l =? LevelDebug)%Z then "DEBUG"
  else if (l =? LevelInfo)%Z then "INFO"
  else if (l =? LevelWarn)%Z then "WARN"
  else if (l =? LevelError)%Z then "ERROR"
  else "UNKNOWN".


Section SimpleLogger.

(** The [io.Writer] of the logger: its state and its [Write] method. *)
Variable W : Type.
Variable Write : W -> string -> W * option string.

(** [SimpleLogger] without its mutex.  [context] holds the entries of the
    map with their values as [%v] prints them, in the order [range] yields
    them. *)
Record SimpleLogger : Type := mkLogger {
  name : string;
  level : Level;
  out : W;
  context : list (string * string)
}.

(** [New] creates a new SimpleLogger with the given name; [stdout] is
    [os.Stdout]. *)
Definition New (stdout : W) (name : string) : SimpleLogger :=
  mkLogger name LevelInfo stdout [].

(** [SetOutput] sets the output destination. *)
Definition SetOutput (l : SimpleLogger) (w : W) : SimpleLogger :=
  mkLogger (name l) (level l) w (context l).

(** [SetLevel] sets the minimum logging level. *)
Definition SetLevel (l : SimpleLogger) (lv : Level) : SimpleLogger :=
  mkLogger (name l) lv (out l) (context l).

(** [GetLevel] returns the current logging level. *)
Definition GetLevel (l : SimpleLogger) : Level := level l.

(** The loop [contextStr += fmt.Sprintf(" %s=%v", k, v)]. *)
Fixpoint contextStr (ctx : list (string * string)) : string :=
  match ctx with
  | [] => ""
  | (k, v) :: rest => " " ++ k ++ "=" ++ v ++ contextStr rest
  end.

(** The loop [for i := 0; i < len(args)-1; i += 2] over the arguments as
    [%v] prints them: it takes them two by two and stops before an
    argument that has no partner. *)
Fixpoint argsStr (args : list string) : string :=
  match args with
  | k :: v :: rest => " " ++ k ++ "=" ++ v ++ argsStr rest
  | _ => ""
  end.

(** [log]; [timestamp] is [time.Now().Format("2006-01-02 15:04:05")].  The
    result is the logger with its writer after the call. *)
Definition log (timestamp : string) (l : SimpleLogger) (lv : Level) (msg : string)
  (args : list string) : SimpleLogger :=
  if (lv <? level l)%Z then l
  else
    SetOutput l
      (fst (Write (out l)
              ("[" ++ timestamp ++ "] " ++ String_ lv ++ " [" ++ name l ++ "]"
               ++ contextStr (context l) ++ " " ++ msg ++ argsStr args ++ LF))).

(** [Debug], [Info], [Warn] and [Error] log at their level. *)
Definition Debug (timestamp : string) (l : SimpleLogger) (msg : string) (args : list string)
  : SimpleLogger := log timestamp l LevelDebug msg args.

Definition Info (timestamp : string) (l : SimpleLogger) (msg : string) (args : list string)
  : SimpleLogger := log timestamp l LevelInfo msg args.

Definition Warn (timestamp : string) (l : SimpleLogger) (msg : string) (args : list string)
  : SimpleLogger := log timestamp l LevelWarn msg args.

Definition Error (timestamp : string) (l : SimpleLogger) (msg : string) (args : list string)
  : SimpleLogger := log timestamp l LevelError msg args.

End SimpleLogger.

End logger.

(** ** Package version *)

Module version.

(** [Info] holds version information. *)
Record Info : Type := mkInfo {
  Version : string;
  GitCommit : string;
  BuildDate : string;
  GoVersion : string;
  Platform : string
}.

(** [s[:n]] on a string. *)
Definition sliceTo (s : string) (n : nat) : outcome string :=
  if n <=? String.length s then Returns (String.substring 0 n s)
  else Panics "slice bounds out of range".

Definition isSet (s : string) : bool :=
  negb (s =? "")%string && negb (s =? "unknown")%string.

(** [String] returns a formatted version string. *)
Definition String_ (i : Info) : string :=
  let s := "Version:    " ++ Version i in
  let s := if isSet (GitCommit i) then s ++ LF ++ "Git Commit: " ++ GitCommit i else s in
  let s := if isSet (BuildDate i) then s ++ LF ++ "Build Date: " ++ BuildDate i else s in
  let s := s ++ LF ++ "Go Version: " ++ GoVersion i in
  s ++ LF ++ "Platform:   " ++ Platform i.

(** [Short] returns just the version string. *)
Definition Short (i : Info) : string := Version i.

(** [Full] returns version with git commit (e.g., "1.0.0-abc1234"). *)
Definition Full (i : Info) : outcome string :=
  if isSet (GitCommit i) && (7 <=? String.length (GitCommit i)) then
    commit <- sliceTo (GitCommit i) 7 ;;
    Returns (Version i ++ "-" ++ commit)
  else Returns (Version i).

(** [LdFlags] returns the ldflags string for building with version info. *)
Definition LdFlags (pkg ver gitCommit buildDate : string) : string :=
  "-X " ++ pkg ++ ".Version=" ++ ver ++ " -X " ++ pkg ++ ".GitCommit=" ++ gitCommit
  ++ " -X " ++ pkg ++ ".BuildDate=" ++ buildDate.

End version.

(** ** Package config: the environment and the loader *)

Module config.

Definition DefaultEnvPrefix : string := "GZH".

Section Env.

(** The environment of the process: the value of a variable that is set. *)
Variable environ : string -> option string.

(** [os.LookupEnv] and [os.Getenv]. *)
Definition os_LookupEnv (key : string) : string * bool :=
  match environ key with
  | Some v => (v, true)
  | None => ("", false)
  end.

Definition os_Getenv (key : string) : string := fst (os_LookupEnv key).

(** [GetEnv] returns the value of an environment variable with optional
    prefix; [prefix] is the variadic argument. *)
Definition GetEnv (key : string) (prefix : list string) : string :=
  let p := match prefix with p0 :: _ => p0 | [] => DefaultEnvPrefix end in
  let key := if negb (p =? "")%string then p ++ "_" ++ key else key in
  os_Getenv key.

(** [GetEnvOr] returns the value of an environment variable or a default
    value. *)
Definition GetEnvOr (key defaultValue : string) (prefix : list string) : string :=
  let v := GetEnv key prefix in
  if negb (v =? "")%string then v else defaultValue.

Definition truthy (v : string) : bool :=
  ((v =? "true") || (v =? "1") || (v =? "yes") || (v =? "on"))%string.

(** [GetEnvBool] returns the boolean value of an environment variable;
    [mapLower] is the branch of [strings.ToLower] for strings outside
    ASCII. *)
Definition GetEnvBool (mapLower : string -> string) (key : string) (prefix : list string)
  : bool :=
  let v := strings.ToLower mapLower (GetEnv key prefix) in
  truthy v.

(** [GetEnvBoolOr] returns the boolean value or a default. *)
Definition GetEnvBoolOr (mapLower : string -> string) (key : string) (defaultValue : bool)
  (prefix : list string) : bool :=
  let v := GetEnv key prefix in
  if (v =? "")%string then defaultValue
  else truthy (strings.ToLower mapLower v).

(** The loop of [GetEnvList]; [TrimSpace] is [strings.TrimSpace]. *)
Fixpoint trimmedParts (TrimSpace : string -> string) (parts : list string)
  (result : list string) : list string :=
  match parts with
  | [] => result
  | p :: rest =>
    let trimmed := TrimSpace p in
    if negb (trimmed =? "")%string then trimmedParts TrimSpace rest (result ++ [trimmed])%list
    else trimmedParts TrimSpace rest result
  end.

(** [GetEnvList] returns a list from a comma-separated environment
    variable; a nil slice is the empty list. *)
Definition GetEnvList (TrimSpace : string -> string) (key : string) (prefix : list string)
  : list string :=
  let v := GetEnv key prefix in
  if (v =? "")%string then []
  else trimmedParts TrimSpace (strings.Split v ",") [].

(** [MustGetEnv] returns the value of an environment variable or panics if
    not set. *)
Definition MustGetEnv (key : string) (prefix : list string) : outcome string :=
  let v := GetEnv key prefix in
  if (v =? "")%string then
    let p := match prefix with p0 :: _ => p0 | [] => DefaultEnvPrefix end in
    let fullKey := if negb (p =? "")%string then p ++ "_" ++ key else key in
    Panics ("required environment variable not set: " ++ fullKey)
  else Returns v.

(** [LookupEnv] returns the value and whether the environment variable is
    set. *)
Definition LookupEnv (key : string) (prefix : list string) : string * bool :=
  let p := match prefix with p0 :: _ => p0 | [] => DefaultEnvPrefix end in
  let key := if negb (p =? "")%string then p ++ "_" ++ key else key in
  os_LookupEnv key.

End Env.

(** [Loader] provides configuration file loading utilities. *)
Record Loader : Type := mkLoader {
  appName : string;
  paths : list string
}.

(** [WithPaths] sets custom search paths. *)
Definition WithPaths (l : Loader) (ps : list string) : Loader := mkLoader (appName l) ps.

(** [AddPath] adds a path to the search list. *)
Definition AddPath (l : Loader) (path : string) : Loader :=
  mkLoader (appName l) (paths l ++ [path])%list.

(** [PrependPath] adds a path to the beginning of the search list. *)
Definition PrependPath (l : Loader) (path : string) : Loader :=
  mkLoader (appName l) ([path] ++ paths l)%list.

(** [Paths] returns the current search paths. *)
Definition Paths (l : Loader) : list string := paths l.

Section Files.

(** The file system as the loader sees it: whether [os.Stat] succeeds on a
    path, and [os.ReadFile], which answers the content or an error. *)
Variable stat : string -> bool.
Variable ReadFile : string -> string + string.

(** The destination of [yaml.Unmarshal] and the decoder: the destination
    after the call and the error, if any. *)
Variable D : Type.
Variable Unmarshal : string -> D -> D * option string.

(** [LoadFrom] loads configuration from a specific file path.  An error is
    its message. *)
Definition LoadFrom (l : Loader) (path : string) (dst : D) : D * option string :=
  match ReadFile path with
  | inr err => (dst, Some ("failed to read config file " ++ path ++ ": " ++ err))
  | inl data =>
    match Unmarshal data dst with
    | (dst', Some err) =>
      (dst', Some ("failed to parse config file " ++ path ++ ": " ++ err))
    | (dst', None) => (dst', None)
    end
  end.

(** The loop of [Load]. *)
Fixpoint loadFirst (l : Loader) (ps : list string) (dst : D) : option (D * option string) :=
  match ps with
  | [] => None
  | path :: rest =>
    if stat path then Some (LoadFrom l path dst)
    else loadFirst l rest dst
  end.

(** [fmt.Sprintf("%v", paths)] on a slice of strings. *)
Definition formatPaths (ps : list string) : string :=
  "[" ++ String.concat " " ps ++ "]".

(** [Load] loads configuration from the first existing file in the search
    paths. *)
Definition Load (l : Loader) (dst : D) : D * option string :=
  match loadFirst l (paths l) dst with
  | Some r => r
  | None => (dst, Some ("no config file found in paths: " ++ formatPaths (paths l)))
  end.

(** [LoadOrDefault] loads configuration, returning nil error if no file
    found. *)
Definition LoadOrDefault (l : Loader) (dst : D) : D * option string :=
  match loadFirst l (paths l) dst with
  | Some r => r
  | None => (dst, None)
  end.

(** The loop of [FindConfigFile]. *)
Fixpoint findFirst (ps : list string) : string * bool :=
  match ps with
  | [] => ("", false)
  | path :: rest => if stat path then (path, true) else findFirst rest
  end.

(** [FindConfigFile] returns the first existing config file path. *)
Definition FindConfigFile (l : Loader) : string * bool := findFirst (paths l).

End Files.

End config.

(** ** Package errors *)

Module errors.

(** The error values.  Those of the standard library that the package
    builds are pointers: [at_] is the address, which [==] compares.
    [ErrorString] is the result of [errors.New] and of [fmt.Errorf] without
    [%w]; [WrapError] of [fmt.Errorf] with one [%w]; [WrapErrors] of
    [fmt.Errorf] with several; [JoinError] of [errors.Join].
    [OtherError] is an error of a type defined elsewhere that has no [Is]
    and no [Unwrap] method: what [==] tells it by, whether its type is
    comparable (so that [==] is defined on it), and its [Error()]. *)
#[warnings="-register-all"] Inductive error : Type :=
| ErrorString (at_ : nat) (s : string)
| WrapError (at_ : nat) (msg : string) (err : error)
| WrapErrors (at_ : nat) (msg : string) (errs : list error)
| JoinError (at_ : nat) (errs : list error)
| OtherError (at_ : nat) (isComparable : bool) (msg : string).

Definition address (e : error) : nat :=
  match e with
  | ErrorString a _ | WrapError a _ _ | WrapErrors a _ _ | JoinError a _
  | OtherError a _ _ => a
  end.

(** [reflectlite.TypeOf(err).Comparable()]. *)
Definition comparable (e : error) : bool :=
  match e with
  | OtherError _ isComparable _ => isComparable
  | _ => true
  end.

(** [err.Error()]. *)
Fixpoint Error (e : error) : string :=
  match e with
  | ErrorString _ s => s
  | WrapError _ msg _ => msg
  | WrapErrors _ msg _ => msg
  | JoinError _ errs => String.concat LF (map Error errs)
  | OtherError _ _ msg => msg
  end.

(** [errors.Is] below a target that is not nil: the target is comparable
    and the error is the target ([isComparable && err == target]), or the
    error it wraps matches, or one of the errors it wraps does. *)
Fixpoint matches (err target : error) : bool :=
  (comparable target && (address err =? address target))
  || match err with
     | ErrorString _ _ => false
     | WrapError _ _ e => matches e target
     | WrapErrors _ _ es => existsb (fun e => matches e target) es
     | JoinError _ es => existsb (fun e => matches e target) es
     | OtherError _ _ _ => false
     end.

(** [New] creates a new error with the given message, at address [at_]. *)
Definition New (at_ : nat) (message : string) : option error :=
  Some (ErrorString at_ message).

(** [Wrap] combines two errors, preserving the chain for errors.Is/As.
    If err is nil, returns target. If target is nil, returns err. *)
Definition Wrap (at_ : nat) (err target : option error) : option error :=
  match err, target with
  | None, _ => target
  | _, None => err
  | Some e, Some t => Some (WrapErrors at_ (Error t ++ ": " ++ Error e) [t; e])
  end.

(** [WrapWithMessage] wraps an error with additional context message. *)
Definition WrapWithMessage (at_ : nat) (err : option error) (message : string)
  : option error :=
  match err with
  | None => None
  | Some e => Some (WrapError at_ (message ++ ": " ++ Error e) e)
  end.

(** [WrapOp] wraps an error with operation context. *)
Definition WrapOp (at_ : nat) (operation : string) (err : option error) : option error :=
  match err with
  | None => None
  | Some e => Some (WrapError at_ (operation ++ " failed: " ++ Error e) e)
  end.

(** [Is] reports whether any error in err's tree matches target. *)
Definition Is (err target : option error) : bool :=
  match err, target with
  | Some e, Some t => matches e t
  | None, None => true
  | _, _ => false
  end.

(** [Join] returns an error that wraps the given errors. *)
Definition Join (at_ : nat) (errs : list (option error)) : option error :=
  match flat_map (fun o => match o with Some e => [e] | None => [] end) errs with
  | [] => None
  | es => Some (JoinError at_ es)
  end.

(** [Unwrap] returns the result of calling the Unwrap method on err. *)
Definition Unwrap (err : option error) : option error :=
  match err with
  | Some (WrapError _ _ e) => Some e
  | _ => None
  end.

(** [InvalidPath] returns a standardized invalid path error. *)
Definition InvalidPath (at_ : nat) (pathType : string) (err : option error) : option error :=
  match err with
  | Some e => Some (WrapError at_ ("invalid " ++ pathType ++ " path: " ++ Error e) e)
  | None => Some (ErrorString at_ ("invalid " ++ pathType ++ " path"))
  end.

End errors.

(** ** Vocabulary of the properties *)

(** *** Labels *)

Definition isUpperLetter (c : ascii) : bool :=
  ((65 <=? byteVal c) && (byteVal c <=? 90))%Z.

Definition isLowerLetter (c : ascii) : bool :=
  ((97 <=? byteVal c) && (byteVal c <=? 122))%Z.

Definition upperCased (c : ascii) : ascii :=
  if isLowerLetter c then byteChr (byteVal c - 32) else c.

Fixpoint isASCII (s : string) : bool :=
  match s with
  | EmptyString => true
  | String c s' => (byteVal c <? 128)%Z && isASCII s'
  end.

(** The character at position [i] exists and satisfies [p]. *)
Definition charIs (p : ascii -> bool) (name : string) (i : nat) : bool :=
  match String.get i name with
  | Some c => p c
  | None => false
  end.

(** Where an underscore goes when the second alternative asks for an
    upper-case letter before position [i]. *)
Definition underscoreAfterUpper (name : string) (i : nat) : bool :=
  (0 <? i) && charIs isUpperLetter name i
  && (charIs isLowerLetter name (i - 1)
      || (charIs isUpperLetter name (i - 1) && charIs isLowerLetter name (i + 1))).

(** Where an underscore goes when the second alternative only asks that
    the character before position [i] is not a lower-case letter. *)
Definition underscoreAfterNonLower (name : string) (i : nat) : bool :=
  (0 <? i) && charIs isUpperLetter name i
  && (charIs isLowerLetter name (i - 1)
      || (negb (charIs isLowerLetter name (i - 1)) && charIs isLowerLetter name (i + 1))).

(** What position [i] contributes to a label: the underscore, if one goes
    there, and the character in upper case. *)
Definition labelPiece (underscore : string -> nat -> bool) (name : string) (i : nat)
  : string :=
  (if underscore name i then "_" else "")
  ++ match String.get i name with
     | Some c => String (upperCased c) ""
     | None => ""
     end.

Definition labelBy (underscore : string -> nat -> bool) (name : string) : string :=
  String.concat "" (map (labelPiece underscore name) (seq 0 (String.length name))).

(** *** Renderings *)

(** The rendering of [v] at [depth]: the string [formatValue] returns. *)
Definition rendering (v : value) (depth : nat) : string :=
  match formatValue v depth with
  | Returns s => s
  | Panics _ => ""
  end.

(** The label of a field: the string [fieldNameToLabel] returns. *)
Definition label (name : string) : string :=
  match fieldNameToLabel name with
  | Returns s => s
  | Panics _ => ""
  end.

Definition returns {A : Type} (o : outcome A) : Prop := exists a, o = Returns a.

(** What a field adds to the output of its record at [depth]: nothing, or
    [LABEL: value] and a line feed, or [LABEL:], a line feed and the block. *)
Definition fieldText (depth : nat) (f : field value) : string :=
  if negb (fExported f) || shouldSkipField (fValue f) then ""
  else
    let formatted := rendering (fValue f) (depth + 1) in
    if (formatted =? "")%string then ""
    else if strings.Contains formatted LF then
      indent depth ++ label (fName f) ++ ":" ++ LF ++ formatted
    else indent depth ++ label (fName f) ++ ": " ++ formatted ++ LF.

(** The strings of a list that are not empty, in order. *)
Definition nonEmpty (l : list string) : list string :=
  filter (fun s => negb (s =? "")%string) l.

(** The elements of a sequence with their positions, counted from [i]. *)
Definition positionsFrom (i : nat) (elems : list value) : list (nat * value) :=
  combine (seq i (List.length elems)) elems.

(** What the element at a position adds to the numbered form of its
    sequence at [depth]: nothing, or the position in brackets, a line feed
    and the rendering of the element. *)
Definition numberedText (depth : nat) (position : nat * value) : string :=
  let formatted := rendering (snd position) (depth + 1) in
  if (formatted =? "")%string then ""
  else indent depth ++ "[" ++ formatInt (Z.of_nat (fst position)) ++ "]" ++ LF ++ formatted.

(** What an entry adds to the output of its mapping at [depth]. *)
Definition entryText (depth : nat) (kv : value * value) : string :=
  let valueStr := rendering (snd kv) (depth + 1) in
  if (valueStr =? "")%string then ""
  else if strings.Contains valueStr LF then
    indent depth ++ rendering (fst kv) depth ++ ":" ++ LF ++ valueStr
  else indent depth ++ rendering (fst kv) depth ++ ": " ++ valueStr ++ LF.

(** *** Zero values *)

(** The zero or empty value of each shape: empty text, [false], 0, a
    sequence or mapping without elements, the unset timestamp, the zero
    duration, the nil reference. *)
Definition isZeroValue (v : value) : bool :=
  match v with
  | VString s => (s =? "")%string
  | VBool b => negb b
  | VInt n => (n =? 0)%Z
  | VUint n => (n =? 0)%N
  | VFloat isZero _ => isZero
  | VSlice elems => match elems with [] => true | _ :: _ => false end
  | VBytes b => match b with [] => true | _ :: _ => false end
  | VMap entries => match entries with [] => true | _ :: _ => false end
  | VTime isZero _ => isZero
  | VDuration d _ => (d =? 0)%Z
  | VPtr target => match target with None => true | Some _ => false end
  | VInterface dynamic => match dynamic with None => true | Some _ => false end
  | VStruct _ | VError _ _ | VOther _ => false
  end.

(** *** Depth *)

(** The truncation marker. *)
Definition marker : string := "...".

(** The number of levels of records, sequences and mappings nested in [v]
    through fields, elements and mapping values: with the root at depth 0,
    the innermost of them lies at depth [nesting v - 1]. *)
Fixpoint nesting (v : value) : nat :=
  match v with
  | VPtr (Some e) | VInterface (Some e) => nesting e
  | VStruct fields =>
    S (list_max (map (fun f => match f with mkField _ _ x => nesting x end) fields))
  | VSlice elems => S (list_max (map nesting elems))
  | VMap entries =>
    S (list_max (map (fun kv => match kv with (_, x) => nesting x end) entries))
  | _ => 0
  end.

(** A record, or a sequence or mapping that has elements. *)
Definition isOpenContainer (v : value) : bool :=
  match v with
  | VStruct _ => true
  | VSlice (_ :: _) => true
  | VMap (_ :: _) => true
  | _ => false
  end.

(** [Reaches v d v' d']: the call [formatValue v d] leads to the call
    [formatValue v' d'], through the target of a reference, an exported
    field that is not skipped, an element, or the value of an entry. *)
Inductive Reaches : value -> nat -> value -> nat -> Prop :=
| reaches_self v d : Reaches v d v d
| reaches_ptr e d v' d' :
    Reaches e d v' d' -> Reaches (VPtr (Some e)) d v' d'
| reaches_interface e d v' d' :
    Reaches e d v' d' -> Reaches (VInterface (Some e)) d v' d'
| reaches_field fields f d v' d' :
    d <= maxLLMDepth -> In f fields ->
    fExported f = true -> shouldSkipField (fValue f) = false ->
    Reaches (fValue f) (d + 1) v' d' -> Reaches (VStruct fields) d v' d'
| reaches_item first rest e d v' d' :
    d <= maxLLMDepth -> isComplexType first = false -> In e (first :: rest) ->
    Reaches e d v' d' -> Reaches (VSlice (first :: rest)) d v' d'
| reaches_elem first rest e d v' d' :
    d <= maxLLMDepth -> isComplexType first = true -> In e (first :: rest) ->
    Reaches e (d + 1) v' d' -> Reaches (VSlice (first :: rest)) d v' d'
| reaches_entry entries key x d v' d' :
    d <= maxLLMDepth -> In (key, x) entries ->
    Reaches x (d + 1) v' d' -> Reaches (VMap entries) d v' d'.

(** *** Values of the package's tests and of the examples *)

Definition exported (name : string) (v : value) : field value := mkField name true v.

(** [Outer{Name: "outer", Inner: Inner{Value: "inner-value"}}]. *)
Definition outerRecord : value :=
  VStruct [exported "Name" (VString "outer");
           exported "Inner" (VStruct [exported "Value" (VString "inner-value")])].

(** [[]string{"go", "cli", "tool"}]. *)
Definition tags : list value := [VString "go"; VString "cli"; VString "tool"].

(** [[]Item{{}, {Path: "README.md", Changes: 5}}]. *)
Definition files : list value :=
  [VStruct [exported "Path" (VString ""); exported "Changes" (VInt 0)];
   VStruct [exported "Path" (VString "README.md"); exported "Changes" (VInt 5)]].

(** [n + 1] records linked by pointers, [Deep{Level, Next *Deep}], the last
    with a nil [Next]. *)
Fixpoint deepChain (level : Z) (n : nat) : value :=
  match n with
  | O => VStruct [exported "Level" (VInt level); exported "Next" (VPtr None)]
  | S k =>
    VStruct [exported "Level" (VInt level);
             exported "Next" (VPtr (Some (deepChain (level + 1) k)))]
  end.

(** [n] sequences nested in one another around [v]. *)
Fixpoint wrapped (n : nat) (v : value) : value :=
  match n with
  | O => v
  | S k => VSlice [wrapped k v]
  end.

(** [n + 1] records nested through a field [Inner], the innermost holding
    [v] in the field [name]: [v] is formatted at depth [n + 1]. *)
Fixpoint nestedField (n : nat) (name : string) (v : value) : value :=
  match n with
  | O => VStruct [exported name v]
  | S k => VStruct [exported "Inner" (nestedField k name v)]
  end.

(** A [bytes.Buffer] as writer: [Write] appends and never fails. *)
Definition bufferWrite (buf : string) (p : string) : string * option string :=
  (buf ++ p, None).

(** *** Further vocabulary *)

(** The value behind every reference is of a type with an [Error] method. *)
Fixpoint isErrorValue (v : value) : bool :=
  match v with
  | VPtr (Some e) | VInterface (Some e) => isErrorValue e
  | VError _ _ => true
  | _ => false
  end.

(** [v] behind references: [true] for a pointer, [false] for an interface. *)
Fixpoint referenced (refs : list bool) (v : value) : value :=
  match refs with
  | [] => v
  | true :: refs' => VPtr (Some (referenced refs' v))
  | false :: refs' => VInterface (Some (referenced refs' v))
  end.

(** No character of [s] is a lower-case letter. *)
Fixpoint hasNoLowerCase (s : string) : bool :=
  match s with
  | EmptyString => true
  | String c s' => negb (isLowerLetter c) && hasNoLowerCase s'
  end.

(** A writer that keeps every string written to it. *)
Definition recordWrite (written : list string) (p : string) : list string * option string :=
  ((written ++ [p])%list, None).

(** A call of [log]: the time it is made at, its level, message and
    arguments. *)
Record logCall : Type := mkLogCall {
  callTime : string;
  callLevel : logger.Level;
  callMsg : string;
  callArgs : list string
}.

(** The calls of a list, made one after the other on a logger. *)
Definition logAll (W : Type) (Write : W -> string -> W * option string)
  (l : logger.SimpleLogger W) (calls : list logCall) : logger.SimpleLogger W :=
  fold_left
    (fun l c => logger.log W Write (callTime c) l (callLevel c) (callMsg c) (callArgs c))
    calls l.

(** The line a call is written as by a logger. *)
Definition logLine (W : Type) (l : logger.SimpleLogger W) (c : logCall) : string :=
  "[" ++ callTime c ++ "] " ++ logger.String_ (callLevel c) ++ " [" ++ logger.name W l ++ "]"
  ++ logger.contextStr (logger.context W l) ++ " " ++ callMsg c
  ++ logger.argsStr (callArgs c) ++ LF.




(** [v], formatted at [depth], without what lies inside the records and the
    sequences and mappings with elements that are formatted beyond the
    depth bound: such a record is left without fields, such a sequence or
    mapping with one nil element or entry.  Fields are formatted one level
    down, like the elements of a sequence whose first element is a record,
    sequence or mapping, and the values of a mapping; the elements of other
    sequences and the keys at the depth of their container. *)
Fixpoint truncated (v : value) (depth : nat) {struct v} : value :=
  match v with
  | VPtr (Some e) => VPtr (Some (truncated e depth))
  | VInterface (Some e) => VInterface (Some (truncated e depth))
  | VStruct fields =>
    if maxLLMDepth <? depth then VStruct []
    else VStruct (map (fun f => match f with
                                | mkField name exported x =>
                                  mkField name exported (truncated x (depth + 1))
                                end) fields)
  | VSlice elems =>
    match elems with
    | [] => VSlice []
    | first :: _ =>
      if maxLLMDepth <? depth then VSlice [VPtr None]
      else if isComplexType first
      then VSlice (map (fun e => truncated e (depth + 1)) elems)
      else VSlice (map (fun e => truncated e depth) elems)
    end
  | VMap entries =>
    match entries with
    | [] => VMap []
    | _ :: _ =>
      if maxLLMDepth <? depth then VMap [(VPtr None, VPtr None)]
      else VMap (map (fun kv => match kv with
                                | (key, x) => (truncated key depth, truncated x (depth + 1))
                                end) entries)
    end
  | _ => v
  end.

(** [type fieldErrors []string] with a method [Error]: an error of a type
    that is not comparable. *)
Definition fieldErrors : errors.error := errors.OtherError 7 false "name: required".

(** The number a hexadecimal digit stands for: [0] to [9] for 0 to 9, [a]
    to [f] for 10 to 15; no other character is a digit. *)
Definition hexValue (c : ascii) : option N :=
  let n := N_of_ascii c in
  if (48 <=? n)%N && (n <=? 57)%N then Some (n - 48)%N
  else if (97 <=? n)%N && (n <=? 102)%N then Some (n - 87)%N
  else None.

(** The bytes a text of hexadecimal digits stands for, two digits a byte,
    the high one first. *)
Fixpoint decodeHex (s : string) : option (list byte) :=
  match s with
  | EmptyString => Some []
  | String _ EmptyString => None
  | String high (String low s') =>
    match hexValue high, hexValue low, decodeHex s' with
    | Some h, Some l, Some bytes =>
      match Byte.of_N (16 * h + l) with
      | Some x => Some (x :: bytes)
      | None => None
      end
    | _, _, _ => None
    end
  end.

(** ** Induction on values *)

Section ValueInduction.

Variable P : value -> Prop.

Hypothesis HPtrNil : P (VPtr None).
Hypothesis HPtr : forall e, P e -> P (VPtr (Some e)).
Hypothesis HInterfaceNil : P (VInterface None).
Hypothesis HInterface : forall e, P e -> P (VInterface (Some e)).
Hypothesis HStruct : forall fields, Forall (fun f => P (fValue f)) fields -> P (VStruct fields).
Hypothesis HSlice : forall elems, Forall P elems -> P (VSlice elems).
Hypothesis HMap :
  forall entries, Forall (fun kv => P (fst kv) /\ P (snd kv)) entries -> P (VMap entries).
Hypothesis HString : forall s, P (VString s).
Hypothesis HBool : forall b, P (VBool b).
Hypothesis HInt : forall n, P (VInt n).
Hypothesis HUint : forall n, P (VUint n).
Hypothesis HFloat : forall z g, P (VFloat z g).
Hypothesis HTime : forall z t, P (VTime z t).
Hypothesis HDuration : forall d s, P (VDuration d s).
Hypothesis HBytes : forall b, P (VBytes b).
Hypothesis HError : forall shape msg, P shape -> P (VError shape msg).
Hypothesis HOther : forall t, P (VOther t).

Fixpoint value_induction (v : value) : P v :=
  match v with
  | VPtr None => HPtrNil
  | VPtr (Some e) => HPtr e (value_induction e)
  | VInterface None => HInterfaceNil
  | VInterface (Some e) => HInterface e (value_induction e)
  | VStruct fields =>
    HStruct fields
      ((fix all (l : list (field value)) : Forall (fun f => P (fValue f)) l :=
          match l with
          | [] => Forall_nil _
          | mkField n x fv :: l' =>
            Forall_cons (mkField n x fv) (value_induction fv) (all l')
          end) fields)
  | VSlice elems =>
    HSlice elems
      ((fix all (l : list value) : Forall P l :=
          match l with
          | [] => Forall_nil _
          | e :: l' => Forall_cons e (value_induction e) (all l')
          end) elems)
  | VMap entries =>
    HMap entries
      ((fix all (l : list (value * value)) : Forall (fun kv => P (fst kv) /\ P (snd kv)) l :=
          match l with
          | [] => Forall_nil _
          | (k, x) :: l' =>
            Forall_cons (k, x) (conj (value_induction k) (value_induction x)) (all l')
          end) entries)
  | VString s => HString s
  | VBool b => HBool b
  | VInt n => HInt n
  | VUint n => HUint n
  | VFloat z g => HFloat z g
  | VTime z t => HTime z t
  | VDuration d s => HDuration d s
  | VBytes b => HBytes b
  | VError shape msg => HError shape msg (value_induction shape)
  | VOther t => HOther t
  end.

End ValueInduction.

(** ** Strings *)

Lemma append_nil_r (s : string) : s ++ "" = s.
Proof. induction s as [|c s IH]; simpl; [reflexivity | now rewrite IH]. Qed.

Lemma append_assoc (a b c : string) : (a ++ b) ++ c = a ++ (b ++ c).
Proof. induction a as [|x a IH]; simpl; [reflexivity | now rewrite IH]. Qed.

Lemma length_append (a b : string) :
  String.length (a ++ b) = String.length a + String.length b.
Proof. induction a as [|x a IH]; simpl; [reflexivity | now rewrite IH]. Qed.

Lemma get_in_range (s : string) (i : nat) :
  i < String.length s -> exists c, String.get i s = Some c.
Proof.
  revert i; induction s as [|c s IH]; simpl; intros i Hi; [lia|].
  destruct i as [|i]; [now exists c|]. apply IH; lia.
Qed.

Lemma get_some_lt (s : string) (i : nat) (c : ascii) :
  String.get i s = Some c -> i < String.length s.
Proof.
  revert i; induction s as [|x s IH]; simpl; intros i H; [discriminate|].
  destruct i as [|i]; [lia|]. apply IH in H; lia.
Qed.

Lemma get_append_here (pre suf : string) (c : ascii) :
  String.get (String.length pre) (pre ++ String c suf) = Some c.
Proof. induction pre as [|x pre IH]; simpl; [reflexivity | exact IH]. Qed.

Lemma isASCII_get (s : string) (i : nat) (c : ascii) :
  isASCII s = true -> String.get i s = Some c -> (byteVal c < 128)%Z.
Proof.
  revert i; induction s as [|x s IH]; simpl; intros i Ha Hg; [discriminate|].
  apply andb_true_iff in Ha as [Hx Hs].
  destruct i as [|i].
  - injection Hg as <-. now apply Z.ltb_lt.
  - eauto.
Qed.

Lemma byteVal_range (c : ascii) : (0 <= byteVal c < 256)%Z.
Proof. unfold byteVal. pose proof (N_ascii_bounded c). lia. Qed.

Lemma byteChr_byteVal (c : ascii) : byteChr (byteVal c) = c.
Proof. unfold byteChr, byteVal. rewrite N2Z.id. apply ascii_N_embedding. Qed.

(** ** Labels *)

Lemma index_in_range (s : string) (i : nat) :
  i < String.length s -> exists c, String.get i s = Some c /\ index s i = Returns (byteVal c).
Proof.
  intros H. destruct (get_in_range s i H) as [c Hc].
  exists c. unfold index. now rewrite Hc.
Qed.

Lemma rangeFrom_bound (s : string) :
  forall i skip p, In p (rangeFrom i s skip) -> i <= fst p < i + String.length s.
Proof.
  induction s as [|c s IH]; intros i skip p Hin; [contradiction|].
  cbn [rangeFrom] in Hin. cbn [String.length].
  destruct skip as [|k].
  - destruct (utf8.DecodeRuneInString (String c s)) as [r w].
    destruct Hin as [<-|Hin]; [simpl; lia|].
    apply IH in Hin. lia.
  - apply IH in Hin. lia.
Qed.

Lemma labelStep_returns (name result : string) (i : nat) (r : rune) :
  i < String.length name -> exists s, labelStep name result i r = Returns s.
Proof.
  intros Hi. unfold labelStep.
  destruct ((0 <? i) && unicode.IsUpper r) eqn:Hup; [|eauto].
  apply andb_true_iff in Hup as [Hpos _]. apply Nat.ltb_lt in Hpos.
  destruct (index_in_range name (i - 1)) as [p [_ ->]]; [lia|].
  destruct (unicode.IsLower (byteVal p)); [eauto|].
  destruct (i + 1 <? String.length name) eqn:Hnext; [|eauto].
  apply Nat.ltb_lt in Hnext.
  destruct (index_in_range name (i + 1) Hnext) as [n [_ ->]].
  destruct (unicode.IsLower (byteVal n)); eauto.
Qed.

Lemma labelLoop_returns (name : string) (iter : list (nat * rune)) :
  (forall p, In p iter -> fst p < String.length name) ->
  forall result, exists s, labelLoop name iter result = Returns s.
Proof.
  induction iter as [|[i r] iter IH]; simpl; intros Hb result; [eauto|].
  destruct (labelStep_returns name result i r) as [s ->].
  - apply (Hb (i, r)). now left.
  - apply IH. intros p Hp. apply Hb. now right.
Qed.

Lemma fieldNameToLabel_returns (name : string) :
  exists label, fieldNameToLabel name = Returns label.
Proof.
  apply labelLoop_returns. intros p Hp.
  apply rangeFrom_bound in Hp. lia.
Qed.

(** ** Labels of ASCII names *)

Lemma get_none (s : string) (i : nat) :
  String.length s <= i -> String.get i s = None.
Proof.
  revert i; induction s as [|c s IH]; simpl; intros i Hi; [reflexivity|].
  destruct i as [|i]; [lia|]. apply IH; lia.
Qed.

Lemma concat_cons (x : string) (l : list string) :
  String.concat "" (x :: l) = x ++ String.concat "" l.
Proof. destruct l; simpl; [now rewrite append_nil_r | reflexivity]. Qed.

Lemma IsUpper_ascii (c : ascii) :
  (byteVal c < 128)%Z -> unicode.IsUpper (byteVal c) = isUpperLetter c.
Proof.
  intros H. unfold unicode.IsUpper, isUpperLetter.
  replace (0xC0 <=? byteVal c)%Z with false by (symmetry; apply Z.leb_gt; lia).
  simpl. apply orb_false_r.
Qed.

Lemma IsLower_ascii (c : ascii) :
  (byteVal c < 128)%Z -> unicode.IsLower (byteVal c) = isLowerLetter c.
Proof.
  intros H. unfold unicode.IsLower, isLowerLetter.
  replace (byteVal c =? 0xB5)%Z with false by (symmetry; apply Z.eqb_neq; lia).
  replace (0xDF <=? byteVal c)%Z with false by (symmetry; apply Z.leb_gt; lia).
  simpl. now rewrite !orb_false_r.
Qed.

Lemma EncodeRune_ascii (r : Z) :
  (0 <= r < 128)%Z -> utf8.EncodeRune r = String (byteChr r) "".
Proof.
  intros H. unfold utf8.EncodeRune.
  replace (0 <=? r)%Z with true by (symmetry; apply Z.leb_le; lia).
  replace (r <=? 0x7F)%Z with true by (symmetry; apply Z.leb_le; lia).
  reflexivity.
Qed.

Lemma ToUpper_ascii (c : ascii) :
  (byteVal c < 128)%Z ->
  utf8.EncodeRune (unicode.ToUpper (byteVal c)) = String (upperCased c) "".
Proof.
  intros H. pose proof (byteVal_range c) as Hr.
  unfold unicode.ToUpper, upperCased, isLowerLetter.
  destruct ((97 <=? byteVal c) && (byteVal c <=? 122))%Z eqn:Hl.
  - apply andb_true_iff in Hl as [H1 H2].
    apply Z.leb_le in H1, H2. apply EncodeRune_ascii. lia.
  - replace (byteVal c =? 0xB5)%Z with false by (symmetry; apply Z.eqb_neq; lia).
    replace (0xE0 <=? byteVal c)%Z with false by (symmetry; apply Z.leb_gt; lia).
    replace (byteVal c =? 0xFF)%Z with false by (symmetry; apply Z.eqb_neq; lia).
    simpl. rewrite EncodeRune_ascii by lia. now rewrite byteChr_byteVal.
Qed.

Lemma DecodeRune_ascii (c : ascii) (t : string) :
  (byteVal c < 128)%Z -> utf8.DecodeRuneInString (String c t) = (byteVal c, 1).
Proof.
  intros H. unfold utf8.DecodeRuneInString.
  replace (byteVal c <? 0x80)%Z with true by (symmetry; apply Z.ltb_lt; lia).
  reflexivity.
Qed.

Lemma labelStep_ascii (name result : string) (i : nat) (c : ascii) :
  isASCII name = true -> String.get i name = Some c ->
  labelStep name result i (byteVal c)
  = Returns (result ++ labelPiece underscoreAfterNonLower name i).
Proof.
  intros Ha Hg.
  pose proof (isASCII_get _ _ _ Ha Hg) as Hc.
  pose proof (get_some_lt _ _ _ Hg) as Hi.
  unfold labelStep, labelPiece, underscoreAfterNonLower, WriteRune.
  unfold charIs at 1. rewrite Hg, (IsUpper_ascii c Hc), (ToUpper_ascii c Hc).
  destruct ((0 <? i) && isUpperLetter c) eqn:Hup; [|reflexivity].
  apply andb_true_iff in Hup as [Hpos _]. apply Nat.ltb_lt in Hpos.
  destruct (index_in_range name (i - 1)) as [p [Hp ->]]; [lia|].
  unfold charIs. rewrite Hp, (IsLower_ascii p (isASCII_get _ _ _ Ha Hp)).
  destruct (isLowerLetter p); simpl.
  - now rewrite append_assoc.
  - destruct (i + 1 <? String.length name) eqn:Hnext.
    + apply Nat.ltb_lt in Hnext.
      destruct (index_in_range name (i + 1) Hnext) as [n [Hn ->]].
      rewrite Hn, (IsLower_ascii n (isASCII_get _ _ _ Ha Hn)).
      destruct (isLowerLetter n); simpl; [now rewrite append_assoc | reflexivity].
    + apply Nat.ltb_ge in Hnext. rewrite (get_none name (i + 1) Hnext).
      reflexivity.
Qed.

Lemma isASCII_app (a b : string) :
  isASCII (a ++ b) = isASCII a && isASCII b.
Proof. induction a as [|c a IH]; simpl; [reflexivity | now rewrite IH, andb_assoc]. Qed.

Lemma labelLoop_ascii (suf : string) :
  forall pre result,
    isASCII (pre ++ suf) = true ->
    labelLoop (pre ++ suf) (rangeFrom (String.length pre) suf 0) result
    = Returns (result ++ String.concat ""
                 (map (labelPiece underscoreAfterNonLower (pre ++ suf))
                    (seq (String.length pre) (String.length suf)))).
Proof.
  induction suf as [|c suf IH]; intros pre result Ha.
  - simpl. now rewrite append_nil_r.
  - assert (Hc : (byteVal c < 128)%Z).
    { apply (isASCII_get _ _ _ Ha (get_append_here pre suf c)). }
    cbn [rangeFrom String.length seq map]. rewrite (DecodeRune_ascii c suf Hc).
    cbn [labelLoop Nat.sub].
    rewrite (labelStep_ascii _ result _ c Ha (get_append_here pre suf c)).
    rewrite concat_cons, <- append_assoc.
    assert (Hname : pre ++ String c suf = (pre ++ String c "") ++ suf).
    { rewrite append_assoc. reflexivity. }
    assert (Hlen : S (String.length pre) = String.length (pre ++ String c "")).
    { rewrite length_append. simpl. lia. }
    rewrite Hname in Ha |- *. rewrite Hlen.
    apply IH. exact Ha.
Qed.

Lemma fieldNameToLabel_ascii (name : string) :
  isASCII name = true ->
  fieldNameToLabel name = Returns (labelBy underscoreAfterNonLower name).
Proof.
  intros Ha. exact (labelLoop_ascii name "" "" Ha).
Qed.

(** ** Every call returns *)

Lemma sliceTo_returns (b : list byte) (n : nat) :
  n <= List.length b -> sliceTo b n = Returns (firstn n b).
Proof.
  intros H. unfold sliceTo. apply Nat.leb_le in H. now rewrite H.
Qed.

Lemma formatSpecialType_returns (v : value) : returns (formatSpecialType v).
Proof.
  unfold returns.
  destruct v; simpl; eauto.
  - destruct isZero; eauto.
  - destruct (d =? 0)%Z; eauto.
  - destruct (List.length b =? 0); eauto.
    destruct (32 <? List.length b) eqn:H; eauto.
    apply Nat.ltb_lt in H. rewrite sliceTo_returns by lia. eauto.
Qed.

Section LoopsReturn.

Variable fv : value -> nat -> outcome string.

Lemma structFields_returns (depth : nat) (fields : list (field value)) :
  Forall (fun f => forall d, returns (fv (fValue f) d)) fields ->
  forall sb, returns (structFields fv depth fields sb).
Proof.
  induction 1 as [|[name exported x] fields Hx _ IH]; intros sb; simpl.
  - now exists sb.
  - destruct exported; simpl; [|apply IH].
    destruct (shouldSkipField x); [apply IH|].
    destruct (fieldNameToLabel_returns name) as [l ->].
    destruct (Hx (depth + 1)) as [s Hs]. simpl in Hs. rewrite Hs.
    destruct (s =? "")%string; [apply IH|].
    destruct (strings.Contains s LF); apply IH.
Qed.

Lemma sliceItems_returns (depth : nat) (elems : list value) :
  Forall (fun e => forall d, returns (fv e d)) elems ->
  forall items, returns (sliceItems fv depth elems items).
Proof.
  induction 1 as [|e elems He _ IH]; intros items; simpl.
  - now exists items.
  - destruct (He depth) as [s ->].
    destruct (negb (s =? "")%string); apply IH.
Qed.

Lemma sliceNumbered_returns (depth : nat) (elems : list value) :
  Forall (fun e => forall d, returns (fv e d)) elems ->
  forall i sb, returns (sliceNumbered fv depth i elems sb).
Proof.
  induction 1 as [|e elems He _ IH]; intros i sb; simpl.
  - now exists sb.
  - destruct (He (depth + 1)) as [s ->].
    destruct (negb (s =? "")%string); apply IH.
Qed.

Lemma mapEntries_returns (depth : nat) (entries : list (value * value)) :
  Forall (fun kv => (forall d, returns (fv (fst kv) d))
                    /\ (forall d, returns (fv (snd kv) d))) entries ->
  forall sb, returns (mapEntries fv depth entries sb).
Proof.
  induction 1 as [|[k x] entries [Hk Hx] _ IH]; intros sb; simpl.
  - now exists sb.
  - simpl in Hk, Hx.
    destruct (Hk depth) as [ks ->]. destruct (Hx (depth + 1)) as [s ->].
    destruct (s =? "")%string; [apply IH|].
    destruct (strings.Contains s LF); apply IH.
Qed.

End LoopsReturn.

Lemma formatValue_returns (v : value) : forall depth, returns (formatValue v depth).
Proof.
  induction v using value_induction; intros depth; simpl;
    try (now eexists); try apply IHv.
  - unfold formatStructWith.
    destruct (maxLLMDepth <? depth); [now eexists|].
    now apply structFields_returns.
  - unfold formatSliceWith.
    destruct (List.length elems =? 0); [now eexists|].
    destruct (maxLLMDepth <? depth); [now eexists|].
    destruct (match elems with [] => false | first :: _ => negb (isComplexType first) end).
    + destruct (sliceItems_returns formatValue depth elems H []) as [items ->].
      destruct (List.length items =? 0); now eexists.
    + now apply sliceNumbered_returns.
  - unfold formatMapWith.
    destruct (List.length entries =? 0); [now eexists|].
    destruct (maxLLMDepth <? depth); [now eexists|].
    now apply mapEntries_returns.
  - destruct b; now eexists.
  - destruct (n =? 0)%Z; now eexists.
  - destruct (n =? 0)%N; now eexists.
  - destruct z; now eexists.
  - destruct z; now eexists.
  - destruct (d =? 0)%Z; now eexists.
  - destruct (formatSpecialType_returns (VBytes b)) as [r Hr].
    simpl in Hr. rewrite Hr. now eexists.
Qed.

Lemma formatValue_rendering (v : value) (depth : nat) :
  formatValue v depth = Returns (rendering v depth).
Proof.
  unfold rendering. destruct (formatValue_returns v depth) as [s ->]. reflexivity.
Qed.

Lemma fieldNameToLabel_label (name : string) :
  fieldNameToLabel name = Returns (label name).
Proof.
  unfold label. destruct (fieldNameToLabel_returns name) as [s ->]. reflexivity.
Qed.

(** ** What the loops build *)

Lemma concat_app (l1 l2 : list string) :
  String.concat "" (l1 ++ l2)%list = String.concat "" l1 ++ String.concat "" l2.
Proof.
  induction l1 as [|x l1 IH]; [reflexivity|].
  change ((x :: l1) ++ l2)%list with (x :: (l1 ++ l2))%list.
  now rewrite !concat_cons, IH, append_assoc.
Qed.

Lemma structFields_text (depth : nat) (fields : list (field value)) :
  forall sb,
    structFields formatValue depth fields sb
    = Returns (sb ++ String.concat "" (map (fieldText depth) fields)).
Proof.
  induction fields as [|[name exported x] fields IH]; intros sb.
  - simpl. now rewrite append_nil_r.
  - cbn [structFields map]. rewrite concat_cons. unfold fieldText at 1.
    cbn [fExported fValue fName].
    destruct exported; cbn [negb orb]; [|now rewrite IH].
    destruct (shouldSkipField x); [now rewrite IH|].
    rewrite fieldNameToLabel_label, formatValue_rendering. cbv zeta.
    destruct (rendering x (depth + 1) =? "")%string; [now rewrite IH|].
    destruct (strings.Contains (rendering x (depth + 1)) LF);
      rewrite IH; f_equal; now rewrite !append_assoc.
Qed.

Lemma sliceItems_text (depth : nat) (elems : list value) :
  forall items,
    sliceItems formatValue depth elems items
    = Returns (items ++ nonEmpty (map (fun e => rendering e depth) elems))%list.
Proof.
  induction elems as [|e elems IH]; intros items.
  - simpl. now rewrite app_nil_r.
  - cbn [sliceItems map nonEmpty filter]. rewrite formatValue_rendering.
    destruct (negb (rendering e depth =? "")%string).
    + rewrite IH. unfold nonEmpty. now rewrite <- app_assoc.
    + now rewrite IH.
Qed.

Lemma sliceNumbered_text (depth : nat) (elems : list value) :
  forall i sb,
    sliceNumbered formatValue depth i elems sb
    = Returns (sb ++ String.concat "" (map (numberedText depth) (positionsFrom i elems))).
Proof.
  induction elems as [|e elems IH]; intros i sb.
  - simpl. now rewrite append_nil_r.
  - unfold positionsFrom. cbn [sliceNumbered List.length seq combine map].
    rewrite concat_cons. unfold numberedText at 1. cbn [fst snd].
    rewrite formatValue_rendering. cbv zeta.
    replace (i + 1) with (S i) by lia.
    destruct (rendering e (depth + 1) =? "")%string; cbn [negb].
    + now rewrite IH.
    + rewrite IH. f_equal. unfold positionsFrom. now rewrite !append_assoc.
Qed.

Lemma mapEntries_text (depth : nat) (entries : list (value * value)) :
  forall sb,
    mapEntries formatValue depth entries sb
    = Returns (sb ++ String.concat "" (map (entryText depth) entries)).
Proof.
  induction entries as [|[k x] entries IH]; intros sb.
  - simpl. now rewrite append_nil_r.
  - cbn [mapEntries map]. rewrite concat_cons. unfold entryText at 1.
    cbn [fst snd]. rewrite !formatValue_rendering. cbv zeta.
    destruct (rendering x (depth + 1) =? "")%string; [now rewrite IH|].
    destruct (strings.Contains (rendering x (depth + 1)) LF);
      rewrite IH; f_equal; now rewrite !append_assoc.
Qed.

Lemma formatStruct_text (fields : list (field value)) (depth : nat) :
  formatStruct fields depth
  = Returns (if maxLLMDepth <? depth then "..."
             else String.concat "" (map (fieldText depth) fields)).
Proof.
  unfold formatStruct, formatStructWith.
  destruct (maxLLMDepth <? depth); [reflexivity|].
  now rewrite structFields_text.
Qed.

Lemma formatSlice_text (elems : list value) (depth : nat) :
  formatSlice elems depth
  = Returns
      match elems with
      | [] => ""
      | first :: _ =>
        if maxLLMDepth <? depth then "..."
        else if isComplexType first then
          String.concat "" (map (numberedText depth) (positionsFrom 0 elems))
        else strings.Join (nonEmpty (map (fun e => rendering e depth) elems)) " | "
      end.
Proof.
  unfold formatSlice, formatSliceWith.
  destruct elems as [|first rest]; [reflexivity|].
  cbn [List.length Nat.eqb].
  destruct (maxLLMDepth <? depth); [reflexivity|].
  destruct (isComplexType first); cbn [negb].
  - now rewrite sliceNumbered_text.
  - rewrite sliceItems_text. cbn [app].
    destruct (nonEmpty (map (fun e => rendering e depth) (first :: rest))); reflexivity.
Qed.

Lemma formatMap_text (entries : list (value * value)) (depth : nat) :
  formatMap entries depth
  = Returns
      match entries with
      | [] => ""
      | _ :: _ =>
        if maxLLMDepth <? depth then "..."
        else String.concat "" (map (entryText depth) entries)
      end.
Proof.
  unfold formatMap, formatMapWith.
  destruct entries as [|kv rest]; [reflexivity|].
  cbn [List.length Nat.eqb].
  destruct (maxLLMDepth <? depth); [reflexivity|].
  now rewrite mapEntries_text.
Qed.

(** ** Skipped fields and indentation *)

Lemma isZeroValue_skipped (v : value) :
  isZeroValue v = true -> shouldSkipField v = true.
Proof.
  destruct v as [[e|]|[e|]|fs|[|e es]|[|kv m]|s|b|n|n|z g|z t|d s|[|x b]|sh msg|t];
    simpl; intros H; try discriminate; auto.
Qed.

Lemma fieldText_skipped (depth : nat) (f : field value) :
  shouldSkipField (fValue f) = true -> fieldText depth f = "".
Proof. intros H. unfold fieldText. now rewrite H, orb_true_r. Qed.

Lemma formatStruct_without (fs1 fs2 : list (field value)) (f : field value) (depth : nat) :
  shouldSkipField (fValue f) = true ->
  formatStruct (fs1 ++ f :: fs2) depth = formatStruct (fs1 ++ fs2) depth.
Proof.
  intros H. rewrite !formatStruct_text.
  destruct (maxLLMDepth <? depth); [reflexivity|].
  rewrite !map_app, !concat_app. cbn [map].
  now rewrite concat_cons, (fieldText_skipped depth f H).
Qed.

Lemma indent_length (depth : nat) : String.length (indent depth) = 2 * depth.
Proof.
  unfold indent, indentSize.
  induction depth as [|d IH]; [reflexivity|].
  cbn [Nat.mul Nat.add strings.Repeat]. simpl String.length. rewrite IH. lia.
Qed.

Lemma indent_succ (depth : nat) : indent (depth + 1) = "  " ++ indent depth.
Proof.
  unfold indent, indentSize. replace (depth + 1) with (S depth) by lia. reflexivity.
Qed.

(** ** Substrings *)

Lemma prefix_append_r (sub : string) :
  forall s t, String.prefix sub s = true -> String.prefix sub (s ++ t) = true.
Proof.
  induction sub as [|a sub IH]; intros s t H; [now destruct (s ++ t)|].
  destruct s as [|b s]; simpl in *; [discriminate|].
  destruct (ascii_dec a b); [now apply IH | discriminate].
Qed.

Lemma Contains_here (s sub : string) :
  String.prefix sub s = true -> strings.Contains s sub = true.
Proof. intros H. destruct s; cbn [strings.Contains]; now rewrite H. Qed.

Lemma Contains_later (c : ascii) (s sub : string) :
  strings.Contains s sub = true -> strings.Contains (String c s) sub = true.
Proof. intros H. cbn [strings.Contains]. rewrite H. apply orb_true_r. Qed.

Lemma Contains_append_r (s t sub : string) :
  strings.Contains s sub = true -> strings.Contains (s ++ t) sub = true.
Proof.
  induction s as [|c s IH]; cbn [strings.Contains]; intros H.
  - rewrite orb_false_r in H. apply Contains_here.
    now apply (prefix_append_r sub "" t).
  - apply orb_true_iff in H as [H|H].
    + apply Contains_here. now apply (prefix_append_r sub (String c s) t).
    + change (String c s ++ t) with (String c (s ++ t)).
      apply Contains_later. now apply IH.
Qed.

Lemma Contains_append_l (s t sub : string) :
  strings.Contains s sub = true -> strings.Contains (t ++ s) sub = true.
Proof.
  intros H. induction t as [|c t IH]; [exact H|].
  change (String c t ++ s) with (String c (t ++ s)).
  now apply Contains_later.
Qed.

Lemma Contains_concat (sub : string) (l : list string) (x : string) :
  In x l -> strings.Contains x sub = true ->
  strings.Contains (String.concat "" l) sub = true.
Proof.
  induction l as [|y l IH]; intros Hin Hx; [contradiction|].
  rewrite concat_cons. destruct Hin as [->|Hin].
  - now apply Contains_append_r.
  - apply Contains_append_l. now apply IH.
Qed.

Lemma Join_cons (x : string) (l : list string) (sep : string) :
  strings.Join (x :: l) sep
  = match l with [] => x | _ :: _ => x ++ sep ++ strings.Join l sep end.
Proof. reflexivity. Qed.

Lemma Contains_Join (sub sep : string) (l : list string) (x : string) :
  In x l -> strings.Contains x sub = true ->
  strings.Contains (strings.Join l sep) sub = true.
Proof.
  induction l as [|y l IH]; intros Hin Hx; [contradiction|].
  rewrite Join_cons. destruct Hin as [->|Hin].
  - destruct l; [exact Hx | now apply Contains_append_r].
  - destruct l as [|z l]; [contradiction|].
    apply Contains_append_l, Contains_append_l. now apply IH.
Qed.

Lemma Contains_marker_nonempty (s : string) :
  strings.Contains s marker = true -> (s =? "")%string = false.
Proof. destruct s; [discriminate | reflexivity]. Qed.

(** ** The truncation marker travels up to the root *)

Lemma rendering_ptr (e : value) (d : nat) : rendering (VPtr (Some e)) d = rendering e d.
Proof. reflexivity. Qed.

Lemma rendering_interface (e : value) (d : nat) :
  rendering (VInterface (Some e)) d = rendering e d.
Proof. reflexivity. Qed.

Lemma rendering_struct (fields : list (field value)) (d : nat) :
  rendering (VStruct fields) d
  = if maxLLMDepth <? d then "..." else String.concat "" (map (fieldText d) fields).
Proof.
  unfold rendering. change (formatValue (VStruct fields) d) with (formatStruct fields d).
  now rewrite formatStruct_text.
Qed.

Lemma rendering_slice (elems : list value) (d : nat) :
  rendering (VSlice elems) d
  = match elems with
    | [] => ""
    | first :: _ =>
      if maxLLMDepth <? d then "..."
      else if isComplexType first then
        String.concat "" (map (numberedText d) (positionsFrom 0 elems))
      else strings.Join (nonEmpty (map (fun e => rendering e d) elems)) " | "
    end.
Proof.
  unfold rendering. change (formatValue (VSlice elems) d) with (formatSlice elems d).
  now rewrite formatSlice_text.
Qed.

Lemma rendering_map (entries : list (value * value)) (d : nat) :
  rendering (VMap entries) d
  = match entries with
    | [] => ""
    | _ :: _ =>
      if maxLLMDepth <? d then "..."
      else String.concat "" (map (entryText d) entries)
    end.
Proof.
  unfold rendering. change (formatValue (VMap entries) d) with (formatMap entries d).
  now rewrite formatMap_text.
Qed.

Lemma In_positionsFrom (elems : list value) (e : value) :
  forall i, In e elems -> exists j, In (j, e) (positionsFrom i elems).
Proof.
  induction elems as [|x elems IH]; intros i Hin; [contradiction|].
  unfold positionsFrom. cbn [List.length seq combine].
  destruct Hin as [->|Hin].
  - exists i. now left.
  - destruct (IH (S i) Hin) as [j Hj]. exists j. now right.
Qed.

Lemma not_beyond (d : nat) : d <= maxLLMDepth -> (maxLLMDepth <? d) = false.
Proof. intros H. apply Nat.ltb_ge. exact H. Qed.

Lemma Reaches_marker (v : value) (d : nat) (v' : value) (d' : nat) :
  Reaches v d v' d' ->
  strings.Contains (rendering v' d') marker = true ->
  strings.Contains (rendering v d) marker = true.
Proof.
  induction 1 as [v d|e d v' d' _ IH|e d v' d' _ IH
                  |fields f d v' d' Hd Hin Hex Hskip _ IH
                  |first rest e d v' d' Hd Hfirst Hin _ IH
                  |first rest e d v' d' Hd Hfirst Hin _ IH
                  |entries key x d v' d' Hd Hin _ IH]; intros Hm.
  - exact Hm.
  - rewrite rendering_ptr. auto.
  - rewrite rendering_interface. auto.
  - specialize (IH Hm).
    rewrite rendering_struct, (not_beyond d Hd).
    apply (Contains_concat marker _ (fieldText d f)); [now apply in_map|].
    unfold fieldText. rewrite Hex, Hskip. cbn [negb orb]. cbv zeta.
    rewrite (Contains_marker_nonempty _ IH).
    destruct (strings.Contains (rendering (fValue f) (d + 1)) LF).
    + now do 4 apply Contains_append_l.
    + do 3 apply Contains_append_l. now apply Contains_append_r.
  - specialize (IH Hm).
    rewrite rendering_slice, (not_beyond d Hd), Hfirst.
    apply (Contains_Join marker _ _ (rendering e d)); [|exact IH].
    unfold nonEmpty. apply filter_In. split.
    + now apply (in_map (fun e => rendering e d)).
    + now rewrite (Contains_marker_nonempty _ IH).
  - specialize (IH Hm).
    rewrite rendering_slice, (not_beyond d Hd), Hfirst.
    destruct (In_positionsFrom _ e 0 Hin) as [j Hj].
    apply (Contains_concat marker _ (numberedText d (j, e))); [now apply in_map|].
    unfold numberedText. cbn [fst snd]. cbv zeta.
    rewrite (Contains_marker_nonempty _ IH).
    now do 5 apply Contains_append_l.
  - specialize (IH Hm).
    rewrite rendering_map, (not_beyond d Hd).
    destruct entries as [|kv entries]; [contradiction|].
    apply (Contains_concat marker _ (entryText d (key, x))); [now apply in_map|].
    unfold entryText. cbn [fst snd]. cbv zeta.
    rewrite (Contains_marker_nonempty _ IH).
    destruct (strings.Contains (rendering x (d + 1)) LF).
    + now do 4 apply Contains_append_l.
    + do 3 apply Contains_append_l. now apply Contains_append_r.
Qed.

Lemma truncated_marker (v : value) (d : nat) :
  maxLLMDepth < d -> isOpenContainer v = true -> formatValue v d = Returns marker.
Proof.
  intros Hd Hv. apply Nat.ltb_lt in Hd.
  destruct v as [t|t|fs|[|e es]|[|kv m]|s|b|n|n|z g|z t|n s|b|sh msg|t];
    try discriminate; simpl.
  - unfold formatStructWith. now rewrite Hd.
  - unfold formatSliceWith. cbn [List.length Nat.eqb]. now rewrite Hd.
  - unfold formatMapWith. cbn [List.length Nat.eqb]. now rewrite Hd.
Qed.

(** C9 *)
Lemma zero_fields_text (depth : nat) (fields : list (field value)) :
  forallb (fun f => isZeroValue (fValue f)) fields = true ->
  String.concat "" (map (fieldText depth) fields) = "".
Proof.
  induction fields as [|f fields IH]; [reflexivity|].
  cbn [forallb map]. intros H. apply andb_true_iff in H as [Hf Hrest].
  rewrite concat_cons, (fieldText_skipped depth f (isZeroValue_skipped _ Hf)).
  now apply IH.
Qed.

(** * The textual contract *)

(** ** Labels *)

(** C1, the rule as worded with "the previous character was itself
    uppercase", on [V2Config]: the character before [C] is a digit, the
    character after it a lower-case letter; [fieldNameToLabel] inserts the
    underscore, the worded rule does not. *)
Lemma fieldNameToLabel_after_digit :
  fieldNameToLabel "V2Config" = Returns "V2_CONFIG"
  /\ labelBy underscoreAfterUpper "V2Config" = "V2CONFIG"
  /\ fieldNameToLabel "V2Config" <> Returns (labelBy underscoreAfterUpper "V2Config").
Proof. repeat split; try reflexivity. vm_compute. discriminate. Qed.

(** C1.  For every field identifier made of ASCII characters,
    [fieldNameToLabel] upper-cases every character and inserts an underscore
    immediately before the character at each position i > 0 that is an
    upper-case letter exactly when the previous character is a lower-case
    letter, or the previous character is not a lower-case letter and the
    character at i+1 is a lower-case letter.  It maps Name to NAME,
    FieldName to FIELD_NAME, HTTPStatus to HTTP_STATUS, ID to ID, URLPath to
    URL_PATH and XMLParser to XML_PARSER. *)
Theorem fieldNameToLabel_upper_snake :
  (forall name,
      isASCII name = true ->
      fieldNameToLabel name = Returns (labelBy underscoreAfterNonLower name))
  /\ fieldNameToLabel "Name" = Returns "NAME"
  /\ fieldNameToLabel "FieldName" = Returns "FIELD_NAME"
  /\ fieldNameToLabel "HTTPStatus" = Returns "HTTP_STATUS"
  /\ fieldNameToLabel "ID" = Returns "ID"
  /\ fieldNameToLabel "URLPath" = Returns "URL_PATH"
  /\ fieldNameToLabel "XMLParser" = Returns "XML_PARSER".
Proof.
  split; [exact fieldNameToLabel_ascii|].
  repeat split; reflexivity.
Qed.

Lemma fieldNameToLabel_upper_snake_witness :
  isASCII "HTTPStatus" = true
  /\ fieldNameToLabel "HTTPStatus" = Returns (labelBy underscoreAfterNonLower "HTTPStatus").
Proof.
  split; [reflexivity|].
  apply (proj1 fieldNameToLabel_upper_snake). reflexivity.
Defined.

(** ** Records *)

(** C2.  Formatting the record {Name: "outer", Inner: {Value:
    "inner-value"}} at root depth 0 returns exactly NAME: outer, INNER: and
    VALUE: inner-value behind two spaces, each followed by a line feed.  The
    output of a record within the depth bound is, field by field
    ([fieldText]): [LABEL: value] and a line feed when the rendering of the
    field has no line feed, [LABEL:] on its own line followed by the nested
    block when it has one; the lines a record writes at depth [d] start
    with [indent d], two spaces per level. *)
Theorem format_nested_record :
  format (Some outerRecord) 0
  = Returns ("NAME: outer" ++ LF ++ "INNER:" ++ LF ++ "  VALUE: inner-value" ++ LF)
  /\ (forall fields depth,
         formatStruct fields depth
         = Returns (if maxLLMDepth <? depth then "..."
                    else String.concat "" (map (fieldText depth) fields)))
  /\ (forall depth,
         String.length (indent depth) = 2 * depth
         /\ indent (depth + 1) = "  " ++ indent depth).
Proof.
  split; [reflexivity|]. split; [exact formatStruct_text|].
  intros depth. split; [apply indent_length | apply indent_succ].
Qed.

(** C3.  For every record, a field whose value is the zero or empty value
    of its shape (empty text, false, integer 0, floating-point 0, a
    sequence or mapping of length zero, the unset timestamp, the zero
    duration, a nil reference) contributes nothing to the output of the
    record: the output is that of the record without the field. *)
Theorem zero_field_omitted :
  forall (before after : list (field value)) (f : field value) (depth : nat),
    isZeroValue (fValue f) = true ->
    formatStruct (before ++ f :: after) depth = formatStruct (before ++ after) depth.
Proof.
  intros before after f depth H.
  apply formatStruct_without. now apply isZeroValue_skipped.
Qed.

Lemma zero_field_omitted_witness :
  isZeroValue (VString "") = true
  /\ formatStruct ([exported "Name" (VString "test")]
                   ++ exported "EmptyStr" (VString "") :: [exported "Count" (VInt 42)]) 0
     = formatStruct ([exported "Name" (VString "test")] ++ [exported "Count" (VInt 42)]) 0.
Proof.
  split; [reflexivity|].
  apply (zero_field_omitted [exported "Name" (VString "test")] [exported "Count" (VInt 42)]
           (exported "EmptyStr" (VString "")) 0).
  reflexivity.
Defined.

(** ** Depth *)

(** C4, the claim as worded, on seven sequences nested in one another, the
    innermost empty and at depth 6: reaching that sequence beyond the
    maximum depth returns the empty string, not the marker, and the output
    of the whole does not contain the marker. *)
Lemma empty_sequence_beyond_depth :
  nesting (wrapped 6 (VSlice [])) = 7
  /\ formatSlice [] 6 = Returns ""
  /\ format (Some (wrapped 6 (VSlice []))) 0 = Returns ""
  /\ strings.Contains "" "..." = false.
Proof. repeat split; reflexivity. Qed.

(** C4.  Formatting returns on every value.  A sequence or mapping without
    elements renders as the empty string at every depth.  A record, or a
    sequence or mapping with elements, that the traversal from the root at
    depth 0 reaches at a depth above the maximum 5 renders as exactly the
    marker "...", whatever it contains, and the output of the root then
    contains the marker. *)
Theorem depth_guard_truncates :
  (forall data depth, exists s, format data depth = Returns s)
  /\ (forall depth,
         formatValue (VSlice []) depth = Returns ""
         /\ formatValue (VMap []) depth = Returns "")
  /\ (forall root v depth,
         Reaches root 0 v depth ->
         maxLLMDepth < depth ->
         isOpenContainer v = true ->
         formatValue v depth = Returns "..."
         /\ exists s, format (Some root) 0 = Returns s
                      /\ strings.Contains s "..." = true).
Proof.
  split; [|split].
  - intros [v|] depth; simpl; [|now eexists].
    destruct (maxLLMDepth <? depth); [now eexists|].
    apply formatValue_returns.
  - intros depth. split; reflexivity.
  - intros root v depth Hreach Hd Hv.
    pose proof (truncated_marker v depth Hd Hv) as Ht.
    split; [exact Ht|].
    exists (rendering root 0). split.
    + simpl. apply formatValue_rendering.
    + apply (Reaches_marker root 0 v depth Hreach).
      unfold rendering. rewrite Ht. reflexivity.
Qed.

Lemma depth_guard_truncates_witness :
  Reaches (deepChain 1 9) 0 (deepChain 7 3) 6
  /\ maxLLMDepth < 6
  /\ isOpenContainer (deepChain 7 3) = true
  /\ formatValue (deepChain 7 3) 6 = Returns "..."
  /\ exists s, format (Some (deepChain 1 9)) 0 = Returns s
               /\ strings.Contains s "..." = true.
Proof.
  assert (R : Reaches (deepChain 1 9) 0 (deepChain 7 3) 6).
  { do 6 (eapply reaches_field;
          [unfold maxLLMDepth; lia | right; left; reflexivity | reflexivity | reflexivity
           | apply reaches_ptr]).
    apply reaches_self. }
  assert (D : maxLLMDepth < 6) by (unfold maxLLMDepth; lia).
  split; [exact R|]. split; [exact D|]. split; [reflexivity|].
  exact (proj2 (proj2 depth_guard_truncates) (deepChain 1 9) (deepChain 7 3) 6 R D eq_refl).
Defined.

(** ** Totality *)



Lemma formatIn_value (st : store) (fuel : nat) (v : value) (depth : nat) :
  formatIn st fuel (Some (CValue v)) depth = Some (format (Some v) depth).
Proof. unfold formatIn, format. destruct (maxLLMDepth <? depth), fuel; reflexivity. Qed.




(** ** Special kinds and scalars *)

(** C6.  A raw byte sequence renders as the empty string when its length
    is 0; when its length N exceeds 32, as the hexadecimal of its first 32
    bytes followed by "...(N bytes)"; otherwise as the hexadecimal of all
    its bytes with no suffix. *)
Theorem bytes_hex_policy :
  (forall (b : list byte) (depth : nat),
      formatValue (VBytes b) depth
      = Returns (if List.length b =? 0 then ""
                 else if 32 <? List.length b then
                   formatHex (firstn 32 b)
                   ++ "...(" ++ formatInt (Z.of_nat (List.length b)) ++ " bytes)"
                 else formatHex b))
  /\ formatValue (VBytes (repeat xab 40)) 0
     = Returns ("abababababababababababababababababababababababababababababababab"
                ++ "...(40 bytes)")
  /\ formatValue (VBytes [x00; x01; x02; x03; x04; x05; x06; x07; x08; xf9]) 0
     = Returns "000102030405060708f9"
  /\ formatValue (VBytes []) 0 = Returns "".
Proof.
  split; [|repeat split; reflexivity].
  intros b depth. simpl.
  destruct (List.length b =? 0); [reflexivity|].
  destruct (32 <? List.length b) eqn:H; [|reflexivity].
  apply Nat.ltb_lt in H. rewrite sliceTo_returns by lia. reflexivity.
Qed.

(** C8.  For every boolean value, true renders as the literal "true" and
    false renders as the empty string, so a record field holding false is
    always omitted from the output. *)
Theorem boolean_asymmetry :
  (forall depth, formatValue (VBool true) depth = Returns "true")
  /\ (forall depth, formatValue (VBool false) depth = Returns "")
  /\ (forall before after name visible depth,
         formatStruct (before ++ mkField name visible (VBool false) :: after) depth
         = formatStruct (before ++ after) depth).
Proof.
  split; [reflexivity|]. split; [reflexivity|].
  intros before after name visible depth.
  now apply formatStruct_without.
Qed.

(** ** Sequences *)

(** C7, the claim as worded, on ["go", "cli", "tool"] at depth 6, where
    the field [Tags] of a record at depth 5 is formatted: the rendering is
    the marker, not the joined elements. *)
Lemma formatSlice_primitive_beyond_depth :
  isComplexType (VString "go") = false
  /\ formatSlice tags 6 = Returns "..."
  /\ strings.Join (nonEmpty (map (fun e => rendering e 6) tags)) " | " = "go | cli | tool"
  /\ formatSlice tags 6
     <> Returns (strings.Join (nonEmpty (map (fun e => rendering e 6) tags)) " | ")
  /\ format (Some (nestedField 5 "Tags" (VSlice tags))) 0
     = Returns ("INNER:" ++ LF ++ "  INNER:" ++ LF ++ "    INNER:" ++ LF
                ++ "      INNER:" ++ LF ++ "        INNER:" ++ LF
                ++ "          TAGS: ..." ++ LF).
Proof. repeat split; try reflexivity. vm_compute. discriminate. Qed.

(** C7.  For every sequence whose first element is a scalar (not a record,
    sequence, or mapping), the rendering at a depth of at most 5 is the
    non-empty renderings of all its elements joined by " | ", and at a
    greater depth the marker "..."; ["go", "cli", "tool"] renders as
    "go | cli | tool"; the empty sequence renders as the empty string. *)
Theorem formatSlice_primitive_join :
  forall (first : value) (rest : list value) (depth : nat),
    isComplexType first = false ->
    formatSlice (first :: rest) depth
    = Returns (if maxLLMDepth <? depth then "..."
               else strings.Join
                      (nonEmpty (map (fun e => rendering e depth) (first :: rest))) " | ")
    /\ formatSlice [] depth = Returns ""
    /\ formatSlice tags 0 = Returns "go | cli | tool".
Proof.
  intros first rest depth H. split; [|split; reflexivity].
  rewrite formatSlice_text, H. reflexivity.
Qed.

Lemma formatSlice_primitive_join_witness :
  isComplexType (VString "go") = false
  /\ formatSlice tags 1 = Returns "go | cli | tool".
Proof.
  split; [reflexivity|].
  exact (proj1 (formatSlice_primitive_join (VString "go") [VString "cli"; VString "tool"] 1
                  eq_refl)).
Defined.

(** C10, the claim as worded, on a sequence of one record at depth 6,
    where the field [Files] of a record at depth 5 is formatted: the
    rendering of the element is not empty, and the output is the marker
    without any position in brackets. *)
Lemma formatSlice_numbered_beyond_depth :
  isComplexType (VStruct [exported "Path" (VString "main.go")]) = true
  /\ rendering (VStruct [exported "Path" (VString "main.go")]) (6 + 1) = "..."
  /\ formatSlice [VStruct [exported "Path" (VString "main.go")]] 6 = Returns "..."
  /\ String.concat ""
       (map (numberedText 6) (positionsFrom 0 [VStruct [exported "Path" (VString "main.go")]]))
     = indent 6 ++ "[0]" ++ LF ++ "..."
  /\ formatSlice [VStruct [exported "Path" (VString "main.go")]] 6
     <> Returns (String.concat ""
                   (map (numberedText 6)
                      (positionsFrom 0 [VStruct [exported "Path" (VString "main.go")]])))
  /\ format (Some (nestedField 5 "Files" (VSlice files))) 0
     = Returns ("INNER:" ++ LF ++ "  INNER:" ++ LF ++ "    INNER:" ++ LF
                ++ "      INNER:" ++ LF ++ "        INNER:" ++ LF
                ++ "          FILES: ..." ++ LF).
Proof. repeat split; try reflexivity. vm_compute. discriminate. Qed.

(** C10.  In a sequence whose first element is a record or nested
    container, formatted at a depth of at most 5, each element whose
    rendering is non-empty is prefixed by its original zero-based position
    in brackets; elements rendering empty are omitted without renumbering
    the rest, so the printed positions can have gaps: [files] prints "[1]"
    with no "[0]".  At a greater depth the sequence renders as "...". *)
Theorem formatSlice_numbered_positions :
  forall (first : value) (rest : list value) (depth : nat),
    isComplexType first = true ->
    formatSlice (first :: rest) depth
    = Returns (if maxLLMDepth <? depth then "..."
               else String.concat ""
                      (map (numberedText depth) (positionsFrom 0 (first :: rest))))
    /\ formatSlice files 0
       = Returns ("[1]" ++ LF ++ "  PATH: README.md" ++ LF ++ "  CHANGES: 5" ++ LF)
    /\ (exists s, formatSlice files 0 = Returns s /\ strings.Contains s "[0]" = false).
Proof.
  intros first rest depth H. split; [|split].
  - rewrite formatSlice_text, H. reflexivity.
  - reflexivity.
  - eexists. split; reflexivity.
Qed.

Lemma formatSlice_numbered_positions_witness :
  isComplexType (VStruct [exported "Path" (VString ""); exported "Changes" (VInt 0)]) = true
  /\ formatSlice files 2
     = Returns (String.concat "" (map (numberedText 2) (positionsFrom 0 files))).
Proof.
  split; [reflexivity|].
  exact (proj1 (formatSlice_numbered_positions
                  (VStruct [exported "Path" (VString ""); exported "Changes" (VInt 0)])
                  [VStruct [exported "Path" (VString "README.md"); exported "Changes" (VInt 5)]]
                  2 eq_refl)).
Defined.

(** ** Printing *)

(** C9.  When the output format is "llm" and the formatter produces the
    empty string (as for nil and for a record whose fields all hold zero
    values), [Print] does not call [Write] at all, not even for a line
    feed: it returns a nil error and leaves the writer as it was. *)
Theorem printLLM_empty_writes_nothing :
  (forall (W : Type) (Write : W -> string -> W * option string)
          (printJSON printYAML printText :
             output.Output W -> option value -> outcome (W * option string))
          (o : output.Output W) (data : option value),
      output.format W o = "llm" ->
      format data 0 = Returns "" ->
      output.Print W Write printJSON printYAML printText o data
      = Returns (output.writer W o, None))
  /\ format None 0 = Returns ""
  /\ (forall fields,
         forallb (fun f => isZeroValue (fValue f)) fields = true ->
         format (Some (VStruct fields)) 0 = Returns "").
Proof.
  split; [|split].
  - intros W Write pj py pt o data Hfmt Hempty.
    unfold output.Print. rewrite Hfmt. cbn [String.eqb Ascii.eqb Bool.eqb orb].
    unfold output.printLLM. rewrite Hempty. reflexivity.
  - reflexivity.
  - intros fields H. cbn [format Nat.ltb Nat.leb maxLLMDepth].
    change (formatValue (VStruct fields) 0) with (formatStruct fields 0).
    rewrite formatStruct_text. cbn [Nat.ltb Nat.leb maxLLMDepth].
    now rewrite zero_fields_text.
Qed.

Lemma printLLM_empty_writes_nothing_witness :
  output.format string (output.mkOutput string "earlier output" "llm") = "llm"
  /\ format None 0 = Returns ""
  /\ output.Print string bufferWrite
       (fun _ _ => Panics "json") (fun _ _ => Panics "yaml") (fun _ _ => Panics "text")
       (output.mkOutput string "earlier output" "llm") None
     = Returns ("earlier output", None).
Proof.
  split; [reflexivity|]. split; [reflexivity|].
  exact (proj1 printLLM_empty_writes_nothing string bufferWrite
           (fun _ _ => Panics "json") (fun _ _ => Panics "yaml") (fun _ _ => Panics "text")
           (output.mkOutput string "earlier output" "llm") None eq_refl eq_refl).
Defined.

(** * Further properties *)

(** ** Records, mappings and skipped values *)

Lemma fieldText_unexported (depth : nat) (f : field value) :
  fExported f = false -> fieldText depth f = "".
Proof. intros H. unfold fieldText. now rewrite H. Qed.

(** X1.  A field that is not exported contributes nothing to the output of its
    record, whatever it holds: the output is that of the record without the
    field. *)
Theorem unexported_field_omitted :
  forall (before after : list (field value)) (f : field value) (depth : nat),
    fExported f = false ->
    formatStruct (before ++ f :: after) depth = formatStruct (before ++ after) depth.
Proof.
  intros before after f depth H. rewrite !formatStruct_text.
  destruct (maxLLMDepth <? depth); [reflexivity|].
  rewrite !map_app, !concat_app. cbn [map].
  now rewrite concat_cons, (fieldText_unexported depth f H).
Qed.

Lemma unexported_field_omitted_witness :
  fExported (mkField "secret" false (VString "hunter2")) = false
  /\ formatStruct ([exported "Name" (VString "test")]
                   ++ mkField "secret" false (VString "hunter2") :: []) 0
     = formatStruct ([exported "Name" (VString "test")] ++ []) 0.
Proof.
  split; [reflexivity|].
  apply (unexported_field_omitted [exported "Name" (VString "test")] []
           (mkField "secret" false (VString "hunter2")) 0).
  reflexivity.
Defined.

(** X2.  Within the depth bound the output of a record is the output of its
    first fields followed by the output of its remaining fields: fields are
    written in declaration order and independently of one another. *)
Theorem formatStruct_concatenates :
  forall (front back : list (field value)) (depth : nat),
    depth <= maxLLMDepth ->
    exists a b,
      formatStruct front depth = Returns a
      /\ formatStruct back depth = Returns b
      /\ formatStruct (front ++ back) depth = Returns (a ++ b).
Proof.
  intros front back depth H.
  rewrite !formatStruct_text, (not_beyond depth H).
  do 2 eexists. split; [reflexivity|]. split; [reflexivity|].
  now rewrite map_app, concat_app.
Qed.

Lemma formatStruct_concatenates_witness :
  0 <= maxLLMDepth
  /\ exists a b,
      formatStruct [exported "Name" (VString "test")] 0 = Returns a
      /\ formatStruct [exported "Count" (VInt 42)] 0 = Returns b
      /\ formatStruct ([exported "Name" (VString "test")] ++ [exported "Count" (VInt 42)]) 0
         = Returns (a ++ b).
Proof.
  split; [apply Nat.le_0_l|].
  apply (formatStruct_concatenates [exported "Name" (VString "test")]
           [exported "Count" (VInt 42)] 0).
  apply Nat.le_0_l.
Defined.

Lemma entryText_empty (depth : nat) (kv : value * value) :
  formatValue (snd kv) (depth + 1) = Returns "" -> entryText depth kv = "".
Proof.
  intros H. unfold entryText, rendering. now rewrite H.
Qed.

(** X3.  Within the depth bound an entry of a mapping whose value renders as
    the empty string contributes nothing, not even its key: the output is
    that of the mapping without the entry. *)
Theorem formatMap_empty_value_omitted :
  forall (before after : list (value * value)) (key x : value) (depth : nat),
    depth <= maxLLMDepth ->
    formatValue x (depth + 1) = Returns "" ->
    formatMap (before ++ (key, x) :: after) depth = formatMap (before ++ after) depth.
Proof.
  intros before after key x depth Hd Hx. rewrite !formatMap_text.
  assert (E : String.concat "" (map (entryText depth) (before ++ (key, x) :: after))
              = String.concat "" (map (entryText depth) (before ++ after))).
  { rewrite !map_app, !concat_app. cbn [map].
    now rewrite concat_cons, (entryText_empty depth (key, x) Hx). }
  rewrite (not_beyond depth Hd).
  destruct (before ++ (key, x) :: after)%list eqn:E1; [now destruct before|].
  rewrite E. destruct (before ++ after)%list; reflexivity.
Qed.

Lemma formatMap_empty_value_omitted_witness :
  0 <= maxLLMDepth
  /\ formatValue (VString "") (0 + 1) = Returns ""
  /\ formatMap ([(VString "a", VString "1")] ++ (VString "b", VString "") :: []) 0
     = formatMap ([(VString "a", VString "1")] ++ []) 0.
Proof.
  split; [apply Nat.le_0_l|]. split; [reflexivity|].
  apply (formatMap_empty_value_omitted [(VString "a", VString "1")] []
           (VString "b") (VString "") 0 (Nat.le_0_l _)).
  reflexivity.
Defined.

(** X4.  The two ways a field is omitted agree: a value [shouldSkipField]
    skips renders as the empty string at every depth, unless its type has
    an [Error] method. *)
Theorem skipped_renders_empty :
  forall (v : value) (depth : nat),
    shouldSkipField v = true ->
    isErrorValue v = false ->
    formatValue v depth = Returns "".
Proof.
  induction v using value_induction; intros depth Hs He; simpl in *;
    try discriminate; try reflexivity; auto.
  - destruct elems; [reflexivity | discriminate].
  - destruct entries; [reflexivity | discriminate].
  - apply String.eqb_eq in Hs. now subst.
  - now destruct b.
  - now rewrite Hs.
  - now rewrite Hs.
  - now rewrite Hs.
  - now rewrite Hs.
  - now rewrite Hs.
  - now rewrite Hs.
Qed.

(** ** Labels *)

Lemma byteVal_byteChr (z : Z) : (0 <= z < 256)%Z -> byteVal (byteChr z) = z.
Proof.
  intros H. unfold byteVal, byteChr.
  rewrite N_ascii_embedding by lia. lia.
Qed.

Lemma hasNoLowerCase_app (a b : string) :
  hasNoLowerCase (a ++ b) = hasNoLowerCase a && hasNoLowerCase b.
Proof. induction a as [|c a IH]; simpl; [reflexivity | now rewrite IH, andb_assoc]. Qed.

Lemma hasNoLowerCase_get (s : string) (i : nat) :
  hasNoLowerCase s = true -> charIs isLowerLetter s i = false.
Proof.
  unfold charIs. revert i; induction s as [|c s IH]; simpl; intros i H; [reflexivity|].
  apply andb_true_iff in H as [Hc Hs].
  destruct i as [|i]; [now apply negb_true_iff in Hc | now apply IH].
Qed.

Lemma upperCased_fixed (c : ascii) : isLowerLetter c = false -> upperCased c = c.
Proof. intros H. unfold upperCased. now rewrite H. Qed.

Lemma upperCased_ascii (c : ascii) :
  (byteVal c < 128)%Z ->
  (byteVal (upperCased c) <? 128)%Z = true /\ isLowerLetter (upperCased c) = false.
Proof.
  intros H. pose proof (byteVal_range c) as R. unfold upperCased.
  destruct (isLowerLetter c) eqn:L.
  - unfold isLowerLetter in L. apply andb_true_iff in L as [L1 L2].
    apply Z.leb_le in L1, L2.
    unfold isLowerLetter. rewrite byteVal_byteChr by lia. split.
    + apply Z.ltb_lt. lia.
    + apply andb_false_iff. left. apply Z.leb_gt. lia.
  - split; [now apply Z.ltb_lt | exact L].
Qed.

(** Every piece of a label is ASCII, without lower-case letters, and one or
    two characters long. *)
Lemma labelPiece_shape (underscore : string -> nat -> bool) (name : string) (i : nat) :
  isASCII name = true -> i < String.length name ->
  isASCII (labelPiece underscore name i) = true
  /\ hasNoLowerCase (labelPiece underscore name i) = true
  /\ 1 <= String.length (labelPiece underscore name i) <= 2.
Proof.
  intros Ha Hi. unfold labelPiece.
  destruct (get_in_range name i Hi) as [c Hc]. rewrite Hc.
  destruct (upperCased_ascii c (isASCII_get _ _ _ Ha Hc)) as [U1 U2].
  destruct (underscore name i); simpl; rewrite U1, U2; simpl; repeat split; lia.
Qed.

Lemma concat_shape (l : list string) :
  Forall (fun p => isASCII p = true /\ hasNoLowerCase p = true
                   /\ 1 <= String.length p <= 2) l ->
  isASCII (String.concat "" l) = true
  /\ hasNoLowerCase (String.concat "" l) = true
  /\ List.length l <= String.length (String.concat "" l) <= 2 * List.length l.
Proof.
  induction 1 as [|p l [P1 [P2 P3]] _ [I1 [I2 I3]]]; [simpl; repeat split; lia|].
  rewrite concat_cons, isASCII_app, hasNoLowerCase_app, length_append, P1, P2, I1, I2.
  cbn [List.length]. repeat split; lia.
Qed.

Lemma labelBy_shape (underscore : string -> nat -> bool) (name : string) :
  isASCII name = true ->
  isASCII (labelBy underscore name) = true
  /\ hasNoLowerCase (labelBy underscore name) = true
  /\ String.length name <= String.length (labelBy underscore name)
     <= 2 * String.length name.
Proof.
  intros Ha. unfold labelBy.
  destruct (concat_shape (map (labelPiece underscore name) (seq 0 (String.length name))))
    as [C1 [C2 C3]].
  - apply Forall_forall. intros p Hp. apply in_map_iff in Hp as [i [<- Hi]].
    apply in_seq in Hi. apply labelPiece_shape; [exact Ha | lia].
  - rewrite length_map, length_seq in C3. auto.
Qed.

Lemma pieces_of_upper (suf : string) :
  forall pre,
    hasNoLowerCase (pre ++ suf) = true ->
    String.concat ""
      (map (labelPiece underscoreAfterNonLower (pre ++ suf))
         (seq (String.length pre) (String.length suf)))
    = suf.
Proof.
  induction suf as [|c suf IH]; intros pre H; [reflexivity|].
  cbn [String.length seq map]. rewrite concat_cons.
  assert (Hname : pre ++ String c suf = (pre ++ String c "") ++ suf)
    by now rewrite append_assoc.
  assert (Hlen : S (String.length pre) = String.length (pre ++ String c ""))
    by (rewrite length_append; simpl; lia).
  assert (Hc : isLowerLetter c = false).
  { rewrite hasNoLowerCase_app in H. apply andb_true_iff in H as [_ H].
    simpl in H. apply andb_true_iff in H as [H _]. now apply negb_true_iff in H. }
  unfold labelPiece at 1, underscoreAfterNonLower.
  rewrite !(hasNoLowerCase_get _ _ H), get_append_here, (upperCased_fixed c Hc).
  rewrite andb_false_r. cbn [orb andb append].
  rewrite Hname in H |- *. rewrite Hlen. f_equal. exact (IH _ H).
Qed.

Lemma labelBy_upper (name : string) :
  hasNoLowerCase name = true -> labelBy underscoreAfterNonLower name = name.
Proof. intros H. exact (pieces_of_upper name "" H). Qed.

(** X7.  [fieldNameToLabel] returns on every string, valid UTF-8 or not: the
    index expressions [name[i-1]] and [name[i+1]] are always in range. *)
Theorem fieldNameToLabel_never_panics :
  forall name : string, exists label, fieldNameToLabel name = Returns label.
Proof. exact fieldNameToLabel_returns. Qed.

(** X8.  An ASCII name without lower-case letters (upper-case letters,
    digits, underscores) is its own label. *)
Theorem fieldNameToLabel_keeps_upper_case_names :
  forall name : string,
    isASCII name = true ->
    hasNoLowerCase name = true ->
    fieldNameToLabel name = Returns name.
Proof.
  intros name Ha Hu. rewrite (fieldNameToLabel_ascii name Ha).
  now rewrite labelBy_upper.
Qed.

(** X9.  The label of an ASCII name is a fixed point: [fieldNameToLabel]
    returns it unchanged. *)
Theorem fieldNameToLabel_idempotent :
  forall name l : string,
    isASCII name = true ->
    fieldNameToLabel name = Returns l ->
    fieldNameToLabel l = Returns l.
Proof.
  intros name l Ha Hl. rewrite (fieldNameToLabel_ascii name Ha) in Hl.
  injection Hl as <-.
  destruct (labelBy_shape underscoreAfterNonLower name Ha) as [A [U _]].
  rewrite (fieldNameToLabel_ascii _ A). now rewrite labelBy_upper.
Qed.

(** X10.  The label of an ASCII name is ASCII, has no lower-case letter, is at
    least as long as the name and at most twice as long. *)
Theorem fieldNameToLabel_shape :
  forall name l : string,
    isASCII name = true ->
    fieldNameToLabel name = Returns l ->
    isASCII l = true
    /\ hasNoLowerCase l = true
    /\ String.length name <= String.length l <= 2 * String.length name.
Proof.
  intros name l Ha Hl. rewrite (fieldNameToLabel_ascii name Ha) in Hl.
  injection Hl as <-. now apply labelBy_shape.
Qed.

(** ** Depth, sequences, bytes and printing *)

Lemma shouldSkipField_truncated (v : value) :
  forall depth, shouldSkipField (truncated v depth) = shouldSkipField v.
Proof.
  induction v using value_induction; intros depth; try reflexivity.
  - simpl. apply IHv.
  - simpl. apply IHv.
  - simpl. now destruct (maxLLMDepth <? depth).
  - destruct elems as [|first rest]; [reflexivity|].
    cbn [truncated]. destruct (maxLLMDepth <? depth); [reflexivity|].
    destruct (isComplexType first); reflexivity.
  - destruct entries as [|kv rest]; [reflexivity|].
    cbn [truncated]. destruct (maxLLMDepth <? depth); reflexivity.
Qed.

Lemma isComplexType_truncated (v : value) :
  forall depth, isComplexType (truncated v depth) = isComplexType v.
Proof.
  induction v using value_induction; intros depth; try reflexivity.
  - simpl. apply IHv.
  - simpl. apply IHv.
  - simpl. now destruct (maxLLMDepth <? depth).
  - destruct elems as [|first rest]; [reflexivity|].
    cbn [truncated]. destruct (maxLLMDepth <? depth); [reflexivity|].
    destruct (isComplexType first); reflexivity.
  - destruct entries as [|kv rest]; [reflexivity|].
    cbn [truncated]. destruct (maxLLMDepth <? depth); reflexivity.
Qed.

Lemma structFields_truncated (depth : nat) (fields : list (field value)) :
  Forall (fun f => forall d, formatValue (truncated (fValue f) d) d = formatValue (fValue f) d)
         fields ->
  forall sb,
    structFields formatValue depth
      (map (fun f => match f with
                     | mkField name exported x =>
                       mkField name exported (truncated x (depth + 1))
                     end) fields) sb
    = structFields formatValue depth fields sb.
Proof.
  induction 1 as [|[name exported x] rest Hx _ IH]; intros sb; [reflexivity|].
  cbn [map structFields]. simpl in Hx.
  rewrite shouldSkipField_truncated, Hx.
  destruct (negb exported); [apply IH|].
  destruct (shouldSkipField x); [apply IH|].
  destruct (fieldNameToLabel name) as [lbl|]; [|reflexivity].
  destruct (formatValue x (depth + 1)) as [s|]; [|reflexivity].
  destruct (s =? "")%string; [apply IH|].
  destruct (strings.Contains s LF); apply IH.
Qed.

Lemma sliceItems_truncated (depth : nat) (elems : list value) :
  Forall (fun e => forall d, formatValue (truncated e d) d = formatValue e d) elems ->
  forall items,
    sliceItems formatValue depth (map (fun e => truncated e depth) elems) items
    = sliceItems formatValue depth elems items.
Proof.
  induction 1 as [|e rest He _ IH]; intros items; [reflexivity|].
  cbn [map sliceItems]. rewrite He.
  destruct (formatValue e depth) as [s|]; [|reflexivity].
  destruct (negb (s =? "")%string); apply IH.
Qed.

Lemma sliceNumbered_truncated (depth : nat) (elems : list value) :
  Forall (fun e => forall d, formatValue (truncated e d) d = formatValue e d) elems ->
  forall i sb,
    sliceNumbered formatValue depth i (map (fun e => truncated e (depth + 1)) elems) sb
    = sliceNumbered formatValue depth i elems sb.
Proof.
  induction 1 as [|e rest He _ IH]; intros i sb; [reflexivity|].
  cbn [map sliceNumbered]. rewrite He.
  destruct (formatValue e (depth + 1)) as [s|]; [|reflexivity].
  destruct (negb (s =? "")%string); apply IH.
Qed.

Lemma mapEntries_truncated (depth : nat) (entries : list (value * value)) :
  Forall (fun kv => (forall d, formatValue (truncated (fst kv) d) d = formatValue (fst kv) d)
                    /\ (forall d, formatValue (truncated (snd kv) d) d = formatValue (snd kv) d))
         entries ->
  forall sb,
    mapEntries formatValue depth
      (map (fun kv => match kv with
                      | (key, x) => (truncated key depth, truncated x (depth + 1))
                      end) entries) sb
    = mapEntries formatValue depth entries sb.
Proof.
  induction 1 as [|[key x] rest [Hk Hx] _ IH]; intros sb; [reflexivity|].
  cbn [map mapEntries]. simpl in Hk, Hx. rewrite Hk, Hx.
  destruct (formatValue key depth) as [k|]; [|reflexivity].
  destruct (formatValue x (depth + 1)) as [s|]; [|reflexivity].
  destruct (s =? "")%string; [apply IH|].
  destruct (strings.Contains s LF); apply IH.
Qed.

Lemma formatValue_truncated (v : value) :
  forall depth, formatValue (truncated v depth) depth = formatValue v depth.
Proof.
  induction v using value_induction; intros depth; try reflexivity.
  - simpl. apply IHv.
  - simpl. apply IHv.
  - cbn [truncated]. destruct (maxLLMDepth <? depth) eqn:E.
    + cbn [formatValue]. unfold formatStructWith. now rewrite E.
    + cbn [formatValue]. unfold formatStructWith. rewrite E.
      now apply structFields_truncated.
  - destruct elems as [|first rest]; [reflexivity|].
    cbn [truncated]. destruct (maxLLMDepth <? depth) eqn:E.
    + cbn [formatValue]. unfold formatSliceWith. cbn [List.length Nat.eqb]. now rewrite E.
    + destruct (isComplexType first) eqn:C.
      * cbn [formatValue]. unfold formatSliceWith.
        cbn [map List.length Nat.eqb]. rewrite E.
        rewrite isComplexType_truncated, C. cbn [negb].
        exact (sliceNumbered_truncated depth (first :: rest) H 0 "").
      * cbn [formatValue]. unfold formatSliceWith.
        cbn [map List.length Nat.eqb]. rewrite E.
        rewrite isComplexType_truncated, C. cbn [negb].
        pose proof (sliceItems_truncated depth (first :: rest) H []) as Hs.
        cbn [map] in Hs. now rewrite Hs.
  - destruct entries as [|kv rest]; [reflexivity|].
    cbn [truncated]. destruct (maxLLMDepth <? depth) eqn:E.
    + cbn [formatValue]. unfold formatMapWith. cbn [List.length Nat.eqb]. now rewrite E.
    + cbn [formatValue]. unfold formatMapWith.
      cbn [map List.length Nat.eqb]. rewrite E.
      exact (mapEntries_truncated depth (kv :: rest) H "").
Qed.

(** X5.  What lies inside a record, or a sequence or mapping with elements,
    that is formatted at a depth above [maxLLMDepth] has no effect on the
    output: two values that are the same without it render the same. *)
Theorem nothing_below_the_bound_is_printed :
  forall (v w : value) (depth : nat),
    truncated v depth = truncated w depth ->
    formatValue v depth = formatValue w depth.
Proof.
  intros v w depth H.
  rewrite <- (formatValue_truncated v depth), <- (formatValue_truncated w depth).
  now rewrite H.
Qed.

Lemma nothing_below_the_bound_is_printed_witness :
  truncated (deepChain 1 9) 0 = truncated (deepChain 1 20) 0
  /\ formatValue (deepChain 1 9) 0 = formatValue (deepChain 1 20) 0.
Proof.
  assert (H : truncated (deepChain 1 9) 0 = truncated (deepChain 1 20) 0) by reflexivity.
  split; [exact H|].
  exact (nothing_below_the_bound_is_printed (deepChain 1 9) (deepChain 1 20) 0 H).
Defined.

Lemma zero_renders_empty (v : value) (depth : nat) :
  isZeroValue v = true -> rendering v depth = "".
Proof.
  intros H. unfold rendering.
  rewrite (skipped_renders_empty v depth (isZeroValue_skipped v H)); [reflexivity|].
  destruct v as [[e|]|[e|]|fs|es|m|s|b|n|n|z g|z t|d s|b|sh msg|t];
    simpl in *; try reflexivity; discriminate.
Qed.

(** X6.  Within the depth bound a sequence all of whose elements are zero
    values renders as the empty string, although it is not empty. *)
Theorem zero_sequence_renders_empty :
  forall (elems : list value) (depth : nat),
    forallb isZeroValue elems = true ->
    depth <= maxLLMDepth ->
    formatSlice elems depth = Returns "".
Proof.
  intros elems depth Hz Hd. rewrite formatSlice_text.
  destruct elems as [|first rest]; [reflexivity|].
  rewrite (not_beyond depth Hd).
  assert (Hall : forall e d, In e (first :: rest) -> rendering e d = "").
  { intros e d He. apply zero_renders_empty.
    rewrite forallb_forall in Hz. now apply Hz. }
  clear Hz. f_equal. destruct (isComplexType first).
  - unfold positionsFrom. generalize 0.
    induction (first :: rest) as [|e l IH]; intros i; [reflexivity|].
    cbn [List.length seq combine map]. rewrite concat_cons.
    unfold numberedText at 1. cbn [snd].
    rewrite (Hall e (depth + 1) (or_introl eq_refl)). cbn [String.eqb append].
    apply IH. intros e' d' He'. apply Hall. now right.
  - replace (nonEmpty (map (fun e => rendering e depth) (first :: rest))) with (@nil string);
      [reflexivity|].
    induction (first :: rest) as [|e l IH]; [reflexivity|].
    cbn [map nonEmpty filter]. rewrite (Hall e depth (or_introl eq_refl)).
    cbn [String.eqb negb]. apply IH. intros e' d' He'. apply Hall. now right.
Qed.

Lemma zero_sequence_renders_empty_witness :
  forallb isZeroValue [VInt 0; VInt 0; VInt 0] = true
  /\ 1 <= maxLLMDepth
  /\ formatSlice [VInt 0; VInt 0; VInt 0] 1 = Returns "".
Proof.
  assert (D : 1 <= maxLLMDepth) by (unfold maxLLMDepth; lia).
  split; [reflexivity|]. split; [exact D|].
  exact (zero_sequence_renders_empty [VInt 0; VInt 0; VInt 0] 1 eq_refl D).
Defined.

Lemma skipped_renders_empty_witness :
  shouldSkipField (VPtr (Some (VSlice []))) = true
  /\ isErrorValue (VPtr (Some (VSlice []))) = false
  /\ formatValue (VPtr (Some (VSlice []))) 3 = Returns "".
Proof.
  split; [reflexivity|]. split; [reflexivity|].
  exact (skipped_renders_empty (VPtr (Some (VSlice []))) 3 eq_refl eq_refl).
Defined.

Lemma formatHex_length (b : list byte) :
  String.length (formatHex b) = 2 * List.length b.
Proof. induction b as [|x b IH]; simpl; [reflexivity | rewrite IH; lia]. Qed.

Lemma decodeHex_byte (x : byte) :
  match hexValue (hexDigit (Byte.to_N x / 16)), hexValue (hexDigit (Byte.to_N x mod 16)) with
  | Some h, Some l => Byte.of_N (16 * h + l)
  | _, _ => None
  end = Some x.
Proof. destruct x; reflexivity. Qed.

Lemma decodeHex_formatHex (b : list byte) : decodeHex (formatHex b) = Some b.
Proof.
  induction b as [|x b IH]; [reflexivity|].
  cbn [formatHex decodeHex]. rewrite IH.
  pose proof (decodeHex_byte x) as H.
  destruct (hexValue (hexDigit (Byte.to_N x / 16))) as [h|]; [|discriminate].
  destruct (hexValue (hexDigit (Byte.to_N x mod 16))) as [l|]; [|discriminate].
  now rewrite H.
Qed.

(** X11.  The rendering of a byte sequence of length N begins with two
    hexadecimal digits for each of its first min(N, 32) bytes, which read
    back as these bytes, and ends there when N is at most 32; when N is
    above 32 the suffix "...(N bytes)" follows. *)
Theorem bytes_rendering_bounded :
  forall (b : list byte) (depth : nat),
    exists hex suffix,
      formatValue (VBytes b) depth = Returns (hex ++ suffix)
      /\ decodeHex hex = Some (firstn 32 b)
      /\ String.length hex = 2 * Nat.min (List.length b) 32
      /\ (suffix = "" <-> List.length b <= 32)
      /\ (32 < List.length b ->
          suffix = "...(" ++ formatInt (Z.of_nat (List.length b)) ++ " bytes)").
Proof.
  intros b depth. cbn [formatValue formatSpecialType].
  destruct (List.length b =? 0) eqn:E0.
  - apply Nat.eqb_eq in E0. exists "", "". rewrite E0.
    destruct b; [|discriminate].
    split; [reflexivity|]. split; [reflexivity|]. split; [reflexivity|].
    split; [split; intros; [lia | reflexivity] | simpl; lia].
  - destruct (32 <? List.length b) eqn:E32.
    + apply Nat.ltb_lt in E32. rewrite sliceTo_returns by lia.
      exists (formatHex (firstn 32 b)),
        ("...(" ++ formatInt (Z.of_nat (List.length b)) ++ " bytes)").
      simpl fst. split; [reflexivity|]. split; [apply decodeHex_formatHex|]. split.
      * rewrite formatHex_length, length_firstn. lia.
      * split; [split; [discriminate | lia] | reflexivity].
    + apply Nat.ltb_ge in E32. exists (formatHex b), "".
      simpl fst. rewrite append_nil_r. split; [reflexivity|].
      split; [rewrite firstn_all2 by lia; apply decodeHex_formatHex|]. split.
      * rewrite formatHex_length. lia.
      * split; [split; auto | lia].
Qed.

(** X12.  Pointers and interfaces around a value, however many, change neither
    its rendering, nor whether it is skipped, nor whether it counts as a
    complex type. *)
Theorem references_are_transparent :
  forall (refs : list bool) (v : value) (depth : nat),
    formatValue (referenced refs v) depth = formatValue v depth
    /\ shouldSkipField (referenced refs v) = shouldSkipField v
    /\ isComplexType (referenced refs v) = isComplexType v.
Proof.
  induction refs as [|[|] refs IH]; intros v depth; simpl; auto.
Qed.

(** X13.  With the format "llm" and an output that is not empty, [Print]
    calls [Write] once, with exactly the formatter's output (no line feed
    added), and returns what [Write] returns. *)
Theorem Print_llm_writes_once :
  forall (W : Type) (Write : W -> string -> W * option string)
         (printJSON printYAML printText :
            output.Output W -> option value -> outcome (W * option string))
         (o : output.Output W) (data : option value) (s : string),
    output.format W o = "llm" ->
    format data 0 = Returns s ->
    s <> "" ->
    output.Print W Write printJSON printYAML printText o data
    = Returns (Write (output.writer W o) s).
Proof.
  intros W Write pj py pt o data s Hfmt Hs Hne.
  unfold output.Print. rewrite Hfmt. cbn [String.eqb Ascii.eqb Bool.eqb orb].
  unfold output.printLLM, output.Fprint. rewrite Hs.
  apply String.eqb_neq in Hne. now rewrite Hne.
Qed.

Lemma Print_llm_writes_once_witness :
  output.format string (output.mkOutput string "earlier output; " "llm") = "llm"
  /\ format (Some (VStruct [exported "Name" (VString "test")])) 0
     = Returns ("NAME: test" ++ LF)
  /\ "NAME: test" ++ LF <> ""
  /\ output.Print string bufferWrite
       (fun _ _ => Panics "json") (fun _ _ => Panics "yaml") (fun _ _ => Panics "text")
       (output.mkOutput string "earlier output; " "llm")
       (Some (VStruct [exported "Name" (VString "test")]))
     = Returns ("earlier output; NAME: test" ++ LF, None).
Proof.
  assert (N : "NAME: test" ++ LF <> "") by discriminate.
  split; [reflexivity|]. split; [reflexivity|]. split; [exact N|].
  exact (Print_llm_writes_once string bufferWrite
           (fun _ _ => Panics "json") (fun _ _ => Panics "yaml") (fun _ _ => Panics "text")
           (output.mkOutput string "earlier output; " "llm")
           (Some (VStruct [exported "Name" (VString "test")]))
           ("NAME: test" ++ LF) eq_refl eq_refl N).
Defined.

(** ** The output format *)

Lemma lowerBytes_without_upper (s : string) :
  strings.hasUpper s = false -> strings.lowerBytes s = s.
Proof.
  induction s as [|c s IH]; simpl; intros H; [reflexivity|].
  apply orb_false_iff in H as [Hc Hs]. now rewrite Hc, IH.
Qed.

Lemma ToLower_ascii (mapLower : string -> string) (s : string) :
  strings.onlyASCII s = true -> strings.ToLower mapLower s = strings.lowerBytes s.
Proof.
  intros H. unfold strings.ToLower. rewrite H.
  destruct (strings.hasUpper s) eqn:U; simpl; [reflexivity|].
  symmetry. now apply lowerBytes_without_upper.
Qed.

(** X14.  [SetFormat] ignores the case of ASCII letters: two ASCII format
    names equal up to case select the same printer in [Print]. *)
Theorem SetFormat_ignores_ascii_case :
  forall (W : Type) (Write : W -> string -> W * option string)
         (printJSON printYAML printText :
            output.Output W -> option value -> outcome (W * option string))
         (mapLower : string -> string) (o : output.Output W) (f g : string)
         (data : option value),
    strings.onlyASCII f = true ->
    strings.onlyASCII g = true ->
    strings.lowerBytes f = strings.lowerBytes g ->
    output.Print W Write printJSON printYAML printText (output.SetFormat W mapLower o f) data
    = output.Print W Write printJSON printYAML printText (output.SetFormat W mapLower o g) data.
Proof.
  intros W Write pj py pt mapLower o f g data Hf Hg H.
  unfold output.SetFormat. now rewrite (ToLower_ascii _ f Hf), (ToLower_ascii _ g Hg), H.
Qed.

Lemma SetFormat_ignores_ascii_case_witness :
  strings.onlyASCII "LLM" = true
  /\ strings.onlyASCII "llm" = true
  /\ strings.lowerBytes "LLM" = strings.lowerBytes "llm"
  /\ output.Print string bufferWrite
       (fun _ _ => Panics "json") (fun _ _ => Panics "yaml") (fun _ _ => Panics "text")
       (output.SetFormat string (fun s => s) (output.NewOutput string "") "LLM")
       (Some (VString "x"))
     = output.Print string bufferWrite
         (fun _ _ => Panics "json") (fun _ _ => Panics "yaml") (fun _ _ => Panics "text")
         (output.SetFormat string (fun s => s) (output.NewOutput string "") "llm")
         (Some (VString "x")).
Proof.
  split; [reflexivity|]. split; [reflexivity|]. split; [reflexivity|].
  exact (SetFormat_ignores_ascii_case string bufferWrite
           (fun _ _ => Panics "json") (fun _ _ => Panics "yaml") (fun _ _ => Panics "text")
           (fun s => s) (output.NewOutput string "") "LLM" "llm" (Some (VString "x"))
           eq_refl eq_refl eq_refl).
Defined.

(** ** The logger *)


Lemma log_recorded (l : logger.SimpleLogger (list string)) (c : logCall) :
  logger.log (list string) recordWrite (callTime c) l (callLevel c) (callMsg c) (callArgs c)
  = logger.mkLogger (list string) (logger.name _ l) (logger.level _ l)
      (logger.out _ l
       ++ (if (callLevel c <? logger.level _ l)%Z then [] else [logLine _ l c]))%list
      (logger.context _ l).
Proof.
  unfold logger.log, logLine. destruct l as [n lv o ctx].
  cbn [logger.level logger.name logger.out logger.context].
  destruct (callLevel c <? lv)%Z.
  - now rewrite app_nil_r.
  - reflexivity.
Qed.

(** X16.  A logger writes, of the calls made on it one after the other,
    exactly those at or above its level, one line each and in the order of
    the calls; calls below the level write nothing, and no call changes the
    name, the level or the context of the logger. *)
Theorem log_writes_the_calls_at_level_in_order :
  forall (l : logger.SimpleLogger (list string)) (calls : list logCall),
    logAll (list string) recordWrite l calls
    = logger.SetOutput (list string) l
        (logger.out _ l
         ++ map (logLine _ l)
              (filter (fun c => negb (callLevel c <? logger.level _ l)%Z) calls))%list.
Proof.
  intros l calls. revert l. induction calls as [|c calls IH]; intros l.
  - destruct l. unfold logger.SetOutput. simpl. now rewrite app_nil_r.
  - unfold logAll in *. cbn [fold_left]. rewrite log_recorded, IH.
    unfold logger.SetOutput.
    cbn [logger.level logger.name logger.out logger.context filter].
    destruct (callLevel c <? logger.level _ l)%Z; cbn [negb].
    + now rewrite app_nil_r.
    + cbn [map]. rewrite <- app_assoc. reflexivity.
Qed.

Lemma argsStr_unpaired (args : list string) :
  forall n x, List.length args = 2 * n ->
    logger.argsStr (args ++ [x]) = logger.argsStr args.
Proof.
  intros n; revert args; induction n as [|n IH]; intros args x H.
  - destruct args; [reflexivity | discriminate].
  - destruct args as [|k [|v rest]]; try (simpl in H; lia).
    cbn [app logger.argsStr]. rewrite (IH rest x); [reflexivity|].
    simpl in H. lia.
Qed.

(** X17.  [log] takes its arguments two by two: after an even number of
    arguments one more argument changes nothing. *)
Theorem log_drops_unpaired_argument :
  forall (W : Type) (Write : W -> string -> W * option string) (timestamp : string)
         (l : logger.SimpleLogger W) (lv : logger.Level) (msg : string)
         (args : list string) (last : string),
    Nat.even (List.length args) = true ->
    logger.log W Write timestamp l lv msg (args ++ [last])
    = logger.log W Write timestamp l lv msg args.
Proof.
  intros W Write ts l lv msg args x H.
  apply Nat.even_spec in H. destruct H as [n Hn].
  unfold logger.log. now rewrite (argsStr_unpaired args n x Hn).
Qed.

Lemma log_drops_unpaired_argument_witness :
  Nat.even (List.length ["key1"; "value1"]) = true
  /\ logger.Info (list string) recordWrite "2025-12-30 10:30:00"
       (logger.New (list string) [] "app") "message" (["key1"; "value1"] ++ ["key2"])
     = logger.Info (list string) recordWrite "2025-12-30 10:30:00"
         (logger.New (list string) [] "app") "message" ["key1"; "value1"].
Proof.
  split; [reflexivity|].
  exact (log_drops_unpaired_argument (list string) recordWrite "2025-12-30 10:30:00"
           (logger.New (list string) [] "app") logger.LevelInfo "message"
           ["key1"; "value1"] "key2" eq_refl).
Defined.

(** ** The version *)

Lemma substring_length (s : string) :
  forall n, n <= String.length s -> String.length (String.substring 0 n s) = n.
Proof.
  induction s as [|c s IH]; intros [|n] H; simpl in *; try reflexivity; try lia.
  rewrite IH; lia.
Qed.

Lemma substring_split (s : string) :
  forall n, n <= String.length s -> exists rest, s = String.substring 0 n s ++ rest.
Proof.
  induction s as [|c s IH]; intros [|n] H; simpl in *.
  - now exists "".
  - lia.
  - now exists (String c s).
  - destruct (IH n) as [rest Hr]; [lia|]. exists rest. now rewrite <- Hr.
Qed.

(** X18.  [Full] never slices out of range.  When the commit is empty,
    ["unknown"] or shorter than seven bytes it returns the version alone,
    as [Short] does; otherwise the version, a dash and the first seven
    bytes of the commit. *)
Theorem Full_extends_version :
  forall i : version.Info,
    exists s,
      version.Full i = Returns s
      /\ (((version.GitCommit i = "" \/ version.GitCommit i = "unknown"
            \/ String.length (version.GitCommit i) < 7)
           /\ s = version.Short i)
          \/ (version.GitCommit i <> "" /\ version.GitCommit i <> "unknown"
              /\ exists seven rest,
                  version.GitCommit i = seven ++ rest
                  /\ String.length seven = 7
                  /\ s = version.Short i ++ "-" ++ seven)).
Proof.
  intros i. unfold version.Full, version.Short, version.sliceTo, version.isSet.
  destruct (version.GitCommit i =? "")%string eqn:E1; cbn [negb andb].
  { apply String.eqb_eq in E1. eexists. split; [reflexivity|]. left. auto. }
  destruct (version.GitCommit i =? "unknown")%string eqn:E2; cbn [negb andb].
  { apply String.eqb_eq in E2. eexists. split; [reflexivity|]. left. auto. }
  destruct (7 <=? String.length (version.GitCommit i)) eqn:H.
  - apply Nat.leb_le in H. eexists. split; [reflexivity|]. right.
    apply String.eqb_neq in E1. apply String.eqb_neq in E2.
    split; [exact E1|]. split; [exact E2|].
    destruct (substring_split _ 7 H) as [rest Hr].
    exists (String.substring 0 7 (version.GitCommit i)), rest.
    split; [exact Hr|]. split; [now apply substring_length | reflexivity].
  - apply Nat.leb_gt in H. eexists. split; [reflexivity|]. left. auto.
Qed.

(** ** The configuration loader *)

Lemma findFirst_found (stat : string -> bool) (ps : list string) (p : string) :
  config.findFirst stat ps = (p, true) ->
  exists before after,
    ps = (before ++ p :: after)%list
    /\ stat p = true
    /\ Forall (fun q => stat q = false) before.
Proof.
  induction ps as [|q ps IH]; simpl; intros H; [discriminate|].
  destruct (stat q) eqn:Hq.
  - injection H as <-. exists [], ps. auto.
  - destruct (IH H) as [before [after [-> [Hp Hb]]]].
    exists (q :: before), after. auto.
Qed.

Lemma findFirst_none (stat : string -> bool) (ps : list string) (p : string) :
  config.findFirst stat ps = (p, false) ->
  p = "" /\ Forall (fun q => stat q = false) ps.
Proof.
  induction ps as [|q ps IH]; simpl; intros H.
  - injection H as <-. auto.
  - destruct (stat q) eqn:Hq; [discriminate|].
    destruct (IH H) as [-> Hall]. auto.
Qed.

(** X19.  [FindConfigFile] answers the first path of the search list that
    exists, no path before it exists; it answers the empty path and false
    only when no path of the list exists. *)
Theorem FindConfigFile_first_existing :
  forall (stat : string -> bool) (l : config.Loader) (p : string),
    (config.FindConfigFile stat l = (p, true) ->
     exists before after,
       config.Paths l = (before ++ p :: after)%list
       /\ stat p = true
       /\ Forall (fun q => stat q = false) before)
    /\ (config.FindConfigFile stat l = (p, false) ->
        p = "" /\ Forall (fun q => stat q = false) (config.Paths l)).
Proof.
  intros stat l p. split; [apply findFirst_found | apply findFirst_none].
Qed.

Lemma FindConfigFile_first_existing_witness :
  config.FindConfigFile (fun p => (p =? "app.yml")%string || (p =? ".app.yaml")%string)
    (config.mkLoader "app" ["app.yaml"; "app.yml"; ".app.yaml"])
  = ("app.yml", true)
  /\ exists before after,
      ["app.yaml"; "app.yml"; ".app.yaml"] = (before ++ "app.yml" :: after)%list
      /\ ((("app.yml" =? "app.yml")%string || ("app.yml" =? ".app.yaml")%string) = true)
      /\ Forall (fun q => (q =? "app.yml")%string || (q =? ".app.yaml")%string = false) before.
Proof.
  split; [reflexivity|].
  exact (proj1 (FindConfigFile_first_existing
                  (fun p => (p =? "app.yml")%string || (p =? ".app.yaml")%string)
                  (config.mkLoader "app" ["app.yaml"; "app.yml"; ".app.yaml"]) "app.yml")
           eq_refl).
Defined.

Lemma loadFirst_findFirst (stat : string -> bool) (ReadFile : string -> string + string)
  (D : Type) (Unmarshal : string -> D -> D * option string)
  (l : config.Loader) (dst : D) (ps : list string) :
  config.loadFirst stat ReadFile D Unmarshal l ps dst
  = match config.findFirst stat ps with
    | (p, true) => Some (config.LoadFrom ReadFile D Unmarshal l p dst)
    | (_, false) => None
    end.
Proof.
  induction ps as [|q ps IH]; simpl; [reflexivity|].
  destruct (stat q); [reflexivity | exact IH].
Qed.

(** X20.  [Load] and [LoadOrDefault] load from the path [FindConfigFile]
    finds; when it finds none, [Load] returns the error listing the paths
    and [LoadOrDefault] returns nil, both leaving the destination as it
    was. *)
Theorem Load_uses_the_file_found :
  forall (stat : string -> bool) (ReadFile : string -> string + string)
         (D : Type) (Unmarshal : string -> D -> D * option string)
         (l : config.Loader) (dst : D),
    config.Load stat ReadFile D Unmarshal l dst
    = match config.FindConfigFile stat l with
      | (p, true) => config.LoadFrom ReadFile D Unmarshal l p dst
      | (_, false) =>
        (dst, Some ("no config file found in paths: " ++ config.formatPaths (config.Paths l)))
      end
    /\ config.LoadOrDefault stat ReadFile D Unmarshal l dst
       = match config.FindConfigFile stat l with
         | (p, true) => config.LoadFrom ReadFile D Unmarshal l p dst
         | (_, false) => (dst, None)
         end.
Proof.
  intros. unfold config.Load, config.LoadOrDefault, config.FindConfigFile, config.Paths.
  rewrite loadFirst_findFirst.
  destruct (config.findFirst stat (config.paths l)) as [p [|]]; split; reflexivity.
Qed.

Lemma findFirst_app (stat : string -> bool) (ps qs : list string) :
  config.findFirst stat (ps ++ qs)%list
  = if snd (config.findFirst stat ps) then config.findFirst stat ps
    else config.findFirst stat qs.
Proof.
  induction ps as [|q ps IH]; simpl; [reflexivity|].
  destruct (stat q); [reflexivity | exact IH].
Qed.


(** X21.  A path added with [PrependPath] is searched first: it is the
    answer of [FindConfigFile] when it exists, and the answer is as before
    otherwise.  A path added with [AddPath] is searched last: it is used
    only when no earlier path exists. *)
Theorem added_paths_search_order :
  forall (stat : string -> bool) (l : config.Loader) (path : string),
    config.FindConfigFile stat (config.PrependPath l path)
    = (if stat path then (path, true) else config.FindConfigFile stat l)
    /\ config.FindConfigFile stat (config.AddPath l path)
       = (if snd (config.FindConfigFile stat l) then config.FindConfigFile stat l
          else if stat path then (path, true) else ("", false)).
Proof.
  intros stat l path. unfold config.FindConfigFile, config.AddPath, config.PrependPath.
  split; [reflexivity|]. simpl. now rewrite findFirst_app.
Qed.

(** ** The environment *)

(** X22.  A variable that is set to the empty string counts as unset:
    [GetEnv] is empty, [GetEnvOr] answers the default and [MustGetEnv]
    panics, although [LookupEnv] reports it as set. *)
Theorem empty_variable_counts_as_unset :
  forall (environ : string -> option string) (key defaultValue : string)
         (prefix : list string),
    config.LookupEnv environ key prefix = ("", true) ->
    config.GetEnv environ key prefix = ""
    /\ config.GetEnvOr environ key defaultValue prefix = defaultValue
    /\ exists msg, config.MustGetEnv environ key prefix = Panics msg.
Proof.
  intros environ key d prefix H.
  assert (G : config.GetEnv environ key prefix = "").
  { unfold config.GetEnv, config.os_Getenv. unfold config.LookupEnv in H.
    now rewrite H. }
  split; [exact G|]. split.
  - unfold config.GetEnvOr. now rewrite G.
  - unfold config.MustGetEnv. rewrite G. simpl. eauto.
Qed.

Lemma empty_variable_counts_as_unset_witness :
  config.LookupEnv (fun k => if (k =? "GZH_TOKEN")%string then Some "" else None) "TOKEN" []
  = ("", true)
  /\ config.GetEnvOr (fun k => if (k =? "GZH_TOKEN")%string then Some "" else None)
       "TOKEN" "fallback" []
     = "fallback".
Proof.
  split; [reflexivity|].
  exact (proj1 (proj2 (empty_variable_counts_as_unset
                         (fun k => if (k =? "GZH_TOKEN")%string then Some "" else None)
                         "TOKEN" "fallback" [] eq_refl))).
Defined.

(** X23.  [GetEnvBoolOr] with the default [false] is [GetEnvBool]. *)
Theorem GetEnvBoolOr_false_is_GetEnvBool :
  forall (environ : string -> option string) (mapLower : string -> string) (key : string)
         (prefix : list string),
    config.GetEnvBoolOr environ mapLower key false prefix
    = config.GetEnvBool environ mapLower key prefix.
Proof.
  intros environ mapLower key prefix. unfold config.GetEnvBoolOr, config.GetEnvBool.
  destruct (String.eqb_spec (config.GetEnv environ key prefix) "") as [->|_]; reflexivity.
Qed.

Lemma trimmedParts_spec (TrimSpace : string -> string) (parts : list string) :
  forall result,
    config.trimmedParts TrimSpace parts result
    = (result ++ filter (fun s => negb (s =? "")%string) (map TrimSpace parts))%list.
Proof.
  induction parts as [|p parts IH]; intros result; simpl.
  - now rewrite app_nil_r.
  - destruct (negb (TrimSpace p =? "")%string); rewrite IH; [|reflexivity].
    now rewrite <- app_assoc.
Qed.

(** X24.  No element of [GetEnvList] is empty, and every element is the
    trimmed form of a comma-separated part of the variable. *)
Theorem GetEnvList_has_no_empty_element :
  forall (environ : string -> option string) (TrimSpace : string -> string) (key : string)
         (prefix : list string) (x : string),
    In x (config.GetEnvList environ TrimSpace key prefix) ->
    x <> ""
    /\ exists part,
        In part (strings.Split (config.GetEnv environ key prefix) ",")
        /\ x = TrimSpace part.
Proof.
  intros environ TrimSpace key prefix x. unfold config.GetEnvList.
  destruct (config.GetEnv environ key prefix =? "")%string; [contradiction|].
  rewrite trimmedParts_spec. cbn [app]. intros H.
  apply filter_In in H as [H1 H2]. apply in_map_iff in H1 as [part [<- Hp]].
  split.
  - apply negb_true_iff in H2. now apply String.eqb_neq.
  - now exists part.
Qed.

Lemma GetEnvList_has_no_empty_element_witness :
  In "b" (config.GetEnvList (fun k => if (k =? "GZH_TAGS")%string then Some "a,,b" else None)
            (fun s => s) "TAGS" [])
  /\ "b" <> "".
Proof.
  assert (H : In "b" (config.GetEnvList
                        (fun k => if (k =? "GZH_TAGS")%string then Some "a,,b" else None)
                        (fun s => s) "TAGS" [])) by (right; left; reflexivity).
  split; [exact H|].
  exact (proj1 (GetEnvList_has_no_empty_element
                  (fun k => if (k =? "GZH_TAGS")%string then Some "a,,b" else None)
                  (fun s => s) "TAGS" [] "b" H)).
Defined.

(** ** Errors *)

Lemma matches_self (e : errors.error) :
  errors.comparable e = true -> errors.matches e e = true.
Proof. intros H. destruct e; simpl in *; now rewrite ?H, Nat.eqb_refl. Qed.

(** X25.  [Wrap] returns the other error when one is nil; otherwise its
    result matches under [Is] each of the two errors that is of a
    comparable type, [Unwrap] of it is nil, and its message is the
    message of the target, a colon and the message of the error.  The
    error [fieldErrors], of a type that is not comparable and has no [Is]
    method, wrapped with a sentinel is not matched. *)
Theorem Wrap_keeps_both_errors :
  forall (at_ : nat) (e t : errors.error),
    errors.Wrap at_ None (Some t) = Some t
    /\ errors.Wrap at_ (Some e) None = Some e
    /\ errors.Wrap at_ None None = None
    /\ (errors.comparable e = true ->
        errors.Is (errors.Wrap at_ (Some e) (Some t)) (Some e) = true)
    /\ (errors.comparable t = true ->
        errors.Is (errors.Wrap at_ (Some e) (Some t)) (Some t) = true)
    /\ errors.Unwrap (errors.Wrap at_ (Some e) (Some t)) = None
    /\ option_map errors.Error (errors.Wrap at_ (Some e) (Some t))
       = Some (errors.Error t ++ ": " ++ errors.Error e)
    /\ errors.Is (errors.Wrap at_ (Some fieldErrors) (errors.New 2 "invalid input"))
         (Some fieldErrors) = false.
Proof.
  intros at_ e t. repeat split; simpl.
  - intros H. rewrite (matches_self e H). now rewrite !orb_true_r.
  - intros H. rewrite (matches_self t H). now rewrite !orb_true_r.
Qed.

Lemma Wrap_keeps_both_errors_witness :
  errors.comparable (errors.ErrorString 1 "not found") = true
  /\ errors.Is (errors.Wrap 3 (errors.New 1 "not found") (errors.New 2 "invalid input"))
       (errors.New 1 "not found") = true.
Proof.
  split; [reflexivity|].
  exact (proj1 (proj2 (proj2 (proj2 (Wrap_keeps_both_errors 3
                                       (errors.ErrorString 1 "not found")
                                       (errors.ErrorString 2 "invalid input")))))
           eq_refl).
Defined.

(** X26.  [WrapWithMessage] maps nil to nil; [Unwrap] gives the wrapped error
    back, and every target the error matches under [Is] is still matched
    after [WrapWithMessage] and after [WrapOp]. *)
Theorem WrapWithMessage_preserves_the_chain :
  forall (at_ : nat) (e : errors.error) (message : string) (target : option errors.error),
    errors.WrapWithMessage at_ None message = None
    /\ errors.Unwrap (errors.WrapWithMessage at_ (Some e) message) = Some e
    /\ (errors.Is (Some e) target = true ->
        errors.Is (errors.WrapWithMessage at_ (Some e) message) target = true)
    /\ (errors.Is (Some e) target = true ->
        errors.Is (errors.WrapOp at_ message (Some e)) target = true).
Proof.
  intros at_ e message target. repeat split; destruct target as [t|]; simpl;
    intros H; try discriminate; rewrite H; apply orb_true_r.
Qed.

Lemma WrapWithMessage_preserves_the_chain_witness :
  errors.Is (errors.New 1 "not found") (errors.New 1 "not found") = true
  /\ errors.Is (errors.WrapWithMessage 2 (errors.New 1 "not found") "context")
       (errors.New 1 "not found") = true.
Proof.
  split; [reflexivity|].
  exact (proj1 (proj2 (proj2 (WrapWithMessage_preserves_the_chain 2
                                (errors.ErrorString 1 "not found") "context"
                                (errors.New 1 "not found")))) eq_refl).
Defined.

(** X27.  [Join] is nil exactly when every error given is nil, and its
    result matches under [Is] each error given that is of a comparable
    type. *)
Theorem Join_keeps_every_error :
  forall (at_ : nat) (errs : list (option errors.error)) (e : errors.error),
    (errors.Join at_ errs = None <-> Forall (fun o => o = None) errs)
    /\ (In (Some e) errs -> errors.comparable e = true ->
        errors.Is (errors.Join at_ errs) (Some e) = true).
Proof.
  intros at_ errs e. unfold errors.Join.
  set (keep := fun o : option errors.error => match o with Some x => [x] | None => [] end).
  split.
  - assert (E : flat_map keep errs = [] <-> Forall (fun o => o = None) errs).
    { induction errs as [|[x|] errs IH]; simpl.
      - split; auto.
      - split; [discriminate | intros H; inversion H; discriminate].
      - rewrite IH. split; [auto | intros H; now inversion H]. }
    destruct (flat_map keep errs); [|split; [discriminate | intros H; apply E in H; discriminate]].
    split; [intros _; now apply E | reflexivity].
  - intros Hin Hc.
    assert (Hin' : In e (flat_map keep errs)).
    { apply in_flat_map. exists (Some e). split; [exact Hin | now left]. }
    destruct (flat_map keep errs) as [|x l] eqn:E; [contradiction|].
    cbn [errors.Is errors.matches]. apply orb_true_iff. right.
    apply existsb_exists. exists e. split; [exact Hin' | now apply matches_self].
Qed.

Lemma Join_keeps_every_error_witness :
  In (errors.New 2 "error 2") [errors.New 1 "error 1"; None; errors.New 2 "error 2"]
  /\ errors.comparable (errors.ErrorString 2 "error 2") = true
  /\ errors.Is (errors.Join 3 [errors.New 1 "error 1"; None; errors.New 2 "error 2"])
       (errors.New 2 "error 2") = true.
Proof.
  assert (H : In (errors.New 2 "error 2")
                [errors.New 1 "error 1"; None; errors.New 2 "error 2"])
    by (right; right; left; reflexivity).
  split; [exact H|]. split; [reflexivity|].
  exact (proj2 (Join_keeps_every_error 3
                  [errors.New 1 "error 1"; None; errors.New 2 "error 2"]
                  (errors.ErrorString 2 "error 2")) H eq_refl).
Defined.

Lemma fieldNameToLabel_keeps_upper_case_names_witness :
  isASCII "HTTP2_ID" = true
  /\ hasNoLowerCase "HTTP2_ID" = true
  /\ fieldNameToLabel "HTTP2_ID" = Returns "HTTP2_ID".
Proof.
  split; [reflexivity|]. split; [reflexivity|].
  exact (fieldNameToLabel_keeps_upper_case_names "HTTP2_ID" eq_refl eq_refl).
Defined.

Lemma fieldNameToLabel_idempotent_witness :
  isASCII "HTTPStatus" = true
  /\ fieldNameToLabel "HTTPStatus" = Returns "HTTP_STATUS"
  /\ fieldNameToLabel "HTTP_STATUS" = Returns "HTTP_STATUS".
Proof.
  split; [reflexivity|]. split; [reflexivity|].
  exact (fieldNameToLabel_idempotent "HTTPStatus" "HTTP_STATUS" eq_refl eq_refl).
Defined.

Lemma fieldNameToLabel_shape_witness :
  isASCII "aB" = true
  /\ fieldNameToLabel "aB" = Returns "A_B"
  /\ isASCII "A_B" = true
  /\ hasNoLowerCase "A_B" = true
  /\ String.length "aB" <= String.length "A_B" <= 2 * String.length "aB".
Proof.
  split; [reflexivity|]. split; [reflexivity|].
  exact (fieldNameToLabel_shape "aB" "A_B" eq_refl eq_refl).
Defined.
